(** * simpleperf: the record file reader (record_file_reader.cpp)

    A shallow embedding of [RecordFileReader] and the properties of its
    read path: life cycle of the descriptor and the mapping, the
    attribute table, the walk over the data section, the feature section
    table and the command line feature. *)

From Stdlib Require Import ZArith List Bool Lia Sorted.
From Stdlib Require Import Strings.Byte Strings.String.
From stdpp Require Import base option list gmap.

Local Open Scope Z_scope.

(** ** Outcomes of a call

    The member functions return plain values (vectors, maps, pointers):
    the C++ signatures have no error channel.  A call either returns to
    its caller, or the process is terminated by a failed [CHECK]
    (android-base logging: [LOG(FATAL)] then [abort()]), or the call has
    no defined behaviour (a load outside the mapping, a division by
    zero).  [OutOfFuel] is the embedding's bound on loop iterations. *)

Inductive outcome (A : Type) : Type :=
| Ret (a : A)
| Aborted
| Undefined
| OutOfFuel.

Arguments Ret {A} a.
Arguments Aborted {A}.
Arguments Undefined {A}.
Arguments OutOfFuel {A}.

#[global] Instance outcome_ret : MRet outcome := fun A a => Ret a.
#[global] Instance outcome_bind : MBind outcome := fun A B f o =>
  match o with
  | Ret a => f a
  | Aborted => Aborted
  | Undefined => Undefined
  | OutOfFuel => OutOfFuel
  end.

(** Control comes back to the caller, with whatever value the function
    uses to tell success from failure. *)
Definition returns_to_caller {A} (o : outcome A) : Prop :=
  exists a, o = Ret a.

(** [CHECK(cond)] *)
Definition CHECK (cond : bool) : outcome unit :=
  if cond then Ret tt else Aborted.

(** ** The mapped file

    [mapping] is the sequence of bytes readable from [mmap_addr_] on.  A
    pointer into the mapping is represented by its distance from
    [mmap_addr_]; pointer arithmetic is arithmetic on [Z].  Multi-byte
    loads are little-endian, as on every Android target. *)

Definition mapping := list byte.

Definition load (m : mapping) (p : Z) : option byte :=
  if p <? 0 then None else m !! Z.to_nat p.

Fixpoint load_bytes (m : mapping) (p : Z) (n : nat) : option (list byte) :=
  match n with
  | O => Some []
  | S k =>
      match load m p, load_bytes m (p + 1) k with
      | Some b, Some bs => Some (b :: bs)
      | _, _ => None
      end
  end.

Definition byte_val (b : byte) : Z := Z.of_N (Byte.to_N b).

Fixpoint le_value (bs : list byte) : Z :=
  match bs with
  | [] => 0
  | b :: rest => byte_val b + 256 * le_value rest
  end.

Definition read_uint (n : nat) (m : mapping) (p : Z) : outcome Z :=
  match load_bytes m p n with
  | Some bs => Ret (le_value bs)
  | None => Undefined
  end.

Definition read_u8 := read_uint 1.
Definition read_u16 := read_uint 2.
Definition read_u32 := read_uint 4.
Definition read_u64 := read_uint 8.

Definition wrap64 (z : Z) : Z := z mod 2 ^ 64.

(** [static_cast<int>] of an unsigned value (two's complement). *)
Definition to_int (z : Z) : Z := (z + 2 ^ 31) mod 2 ^ 32 - 2 ^ 31.

(** ** PerfFileFormat

    record_file_format.h and the kernel's perf_event.h are not part of
    the sources at hand; what the reader needs from them (enumerators,
    field offsets, structure sizes) is a parameter of the development. *)

Class Layout := {
  (* perf_event.h *)
  PERF_RECORD_SAMPLE : Z;
  PERF_SAMPLE_TIME : Z;
  sizeof_perf_event_attr : nat;
  offsetof_attr_sample_type : Z;
  (* the 64-bit word of one-bit flags of perf_event_attr, and the index
     of [sample_id_all] in it *)
  offsetof_attr_flags : Z;
  bit_sample_id_all : Z;
  (* record_file_format.h *)
  FEAT_CMDLINE : Z;
  offsetof_FileHeader_attr_size : Z;
  offsetof_FileHeader_attrs : Z;
  offsetof_FileHeader_data : Z;
  offsetof_FileHeader_features : Z;
  sizeof_FileHeader_features : nat;
  offsetof_FileAttr_attr : Z;
  offsetof_FileAttr_ids : Z;
  sizeof_FileAttr : Z;
}.

(** The values of the perf.data format on 64-bit Linux, with a
    [perf_event_attr] of 112 bytes. *)
Definition perf_data_layout : Layout := {|
  PERF_RECORD_SAMPLE := 9;
  PERF_SAMPLE_TIME := 4;
  sizeof_perf_event_attr := 112;
  offsetof_attr_sample_type := 24;
  offsetof_attr_flags := 40;
  bit_sample_id_all := 18;
  FEAT_CMDLINE := 11;
  offsetof_FileHeader_attr_size := 16;
  offsetof_FileHeader_attrs := 24;
  offsetof_FileHeader_data := 40;
  offsetof_FileHeader_features := 72;
  sizeof_FileHeader_features := 32;
  offsetof_FileAttr_attr := 0;
  offsetof_FileAttr_ids := 112;
  sizeof_FileAttr := 128;
|}.

Record SectionDesc := { offset : Z; size : Z }.

(** Loading a [SectionDesc] through a pointer: two [uint64_t]. *)
Definition read_SectionDesc (m : mapping) (p : Z) : outcome SectionDesc :=
  o ← read_u64 m p;
  s ← read_u64 m (p + 8);
  Ret {| offset := o; size := s |}.

(** [perf_event_header]: [__u32 type; __u16 misc; __u16 size]. *)
Record perf_event_header := { type : Z; misc : Z; hsize : Z }.

(** What the reader looks at in a [perf_event_attr], and the bytes of
    the whole structure for the decoder. *)
Record perf_event_attr := {
  sample_type : Z;
  sample_id_all : bool;
  attr_bytes : list byte;
}.

(** What [IsRecordHappensBefore] looks at in a decoded record:
    [header.type], [sample_id.time_data.time], and, for a
    [SampleRecord], its own [time_data.time]. *)
Record Record_ := {
  header : perf_event_header;
  sample_id_time : Z;
  SampleRecord_time : Z;
}.

(** ** RecordFileReader: the object *)

Record RecordFileReader := {
  filename_ : string;
  record_fd_ : Z;
  mmap_addr_ : Z;
  mmap_len_ : Z;
  feature_sections_ : gmap Z SectionDesc;
}.

(** [std::map::insert]: an existing key keeps its value. *)
Definition map_insert (k : Z) (v : SectionDesc) (mp : gmap Z SectionDesc)
  : gmap Z SectionDesc :=
  match mp !! k with
  | Some _ => mp
  | None => <[k:=v]> mp
  end.

Definition set_feature_sections (r : RecordFileReader)
    (mp : gmap Z SectionDesc) : RecordFileReader :=
  {| filename_ := filename_ r; record_fd_ := record_fd_ r;
     mmap_addr_ := mmap_addr_ r; mmap_len_ := mmap_len_ r;
     feature_sections_ := mp |}.

(** ** IsRecordHappensBefore *)

Section Comparator.
Context {L : Layout}.

Definition is_sample (r : Record_) : bool :=
  type (header r) =? PERF_RECORD_SAMPLE.

Definition record_time (r : Record_) : Z :=
  if is_sample r then SampleRecord_time r else sample_id_time r.

Definition IsRecordHappensBefore (r1 r2 : Record_) : bool :=
  let is_r1_sample := is_sample r1 in
  let is_r2_sample := is_sample r2 in
  let time1 := record_time r1 in
  let time2 := record_time r2 in
  if negb (time1 =? time2) then time1 <? time2
  else if negb (eqb is_r1_sample is_r2_sample) then
    (if is_r1_sample then false else true)
  else false.
End Comparator.

(** ** Reading through the mapping *)

Section Reader.
Context {L : Layout}.

(** The decoder of record.cpp and [std::sort] are used, not defined,
    by the reader. *)
Variable ReadRecordFromBuffer : perf_event_attr -> mapping -> Z -> Record_.
Variable std_sort :
  (Record_ -> Record_ -> bool) -> list Record_ -> list Record_.

(** [FileHeader()]: [mmap_addr_] seen as a [FileHeader*]. *)
Definition FileHeader : Z := 0.

Definition header_attr_size (m : mapping) (hdr : Z) : outcome Z :=
  read_u64 m (hdr + offsetof_FileHeader_attr_size).
Definition header_attrs (m : mapping) (hdr : Z) : outcome SectionDesc :=
  read_SectionDesc m (hdr + offsetof_FileHeader_attrs).
Definition header_data (m : mapping) (hdr : Z) : outcome SectionDesc :=
  read_SectionDesc m (hdr + offsetof_FileHeader_data).
Definition header_features (m : mapping) (hdr : Z) (i : Z) : outcome Z :=
  read_u8 m (hdr + offsetof_FileHeader_features + i).

(** [AttrSection()]: pointers to the [FileAttr] entries. *)
Definition AttrSection (m : mapping) : outcome (list Z) :=
  let hdr := FileHeader in
  attrs ← header_attrs m hdr;
  attr_size ← header_attr_size m hdr;
  if attr_size =? 0 then Undefined
  else
    let attr_count := size attrs / attr_size in
    let attr := offset attrs in
    Ret (map (fun i => attr + Z.of_nat i * sizeof_FileAttr)
             (seq 0 (Z.to_nat attr_count))).

(** The loop of [IdsForAttr]: [n] times [result.push_back( *id++ )]. *)
Fixpoint read_ids (m : mapping) (id : Z) (n : nat) : outcome (list Z) :=
  match n with
  | O => Ret []
  | S k =>
      v ← read_u64 m id;
      rest ← read_ids m (id + 8) k;
      Ret (v :: rest)
  end.

Definition IdsForAttr (m : mapping) (attr : Z) : outcome (list Z) :=
  ids ← read_SectionDesc m (attr + offsetof_FileAttr_ids);
  let id_count := size ids / 8 in
  let id := offset ids in
  read_ids m id (Z.to_nat id_count).

(** [perf_event_attr attr = file_attrs[0]->attr]: the structure is
    copied out of the mapping. *)
Definition read_perf_event_attr (m : mapping) (p : Z)
  : outcome perf_event_attr :=
  match load_bytes m p sizeof_perf_event_attr with
  | None => Undefined
  | Some bs =>
      st ← read_u64 m (p + offsetof_attr_sample_type);
      fl ← read_u64 m (p + offsetof_attr_flags);
      Ret {| sample_type := st;
             sample_id_all := Z.testbit fl bit_sample_id_all;
             attr_bytes := bs |}
  end.

(** The [while (p < end)] loop of [DataSection]. *)
Fixpoint walk_records (fuel : nat) (attr : perf_event_attr) (m : mapping)
    (end_ p : Z) (result : list Record_) : outcome (list Record_) :=
  if p <? end_ then
    match fuel with
    | O => OutOfFuel
    | S fuel' =>
        let header := p in
        hsz ← read_u16 m (header + 6);
        let result' :=
          if p + hsz <=? end_
          then result ++ [ReadRecordFromBuffer attr m header]
          else result in
        walk_records fuel' attr m end_ (p + hsz) result'
    end
  else Ret result.

(** [mmap_addr_ + n] as [DataSection] forms it: the sum is a 64-bit
    address and wraps; the result is kept, like every pointer here, as
    its distance from [mmap_addr_] (negative when the sum has wrapped
    below the mapping). *)
Definition ptr_add (mmap_addr n : Z) : Z :=
  wrap64 (mmap_addr + n) - mmap_addr.

Definition DataSection (fuel : nat) (r : RecordFileReader) (m : mapping)
  : outcome (list Record_) :=
  let header := FileHeader in
  file_attrs ← AttrSection m;
  _ ← CHECK (0 <? Z.of_nat (length file_attrs));
  attr ← read_perf_event_attr m
           (nth 0 file_attrs 0 + offsetof_FileAttr_attr);
  data ← header_data m header;
  let end_ := ptr_add (mmap_addr_ r) (offset data + size data) in
  let p := ptr_add (mmap_addr_ r) (offset data) in
  result ← walk_records fuel attr m end_ p [];
  if negb (Z.land (sample_type attr) PERF_SAMPLE_TIME =? 0)
     && sample_id_all attr
  then Ret (std_sort IsRecordHappensBefore result)
  else Ret result.

(** The two nested [for] loops over the feature bitmap. *)
Definition scan_byte (i : Z) (b : Z) : list Z :=
  flat_map (fun j => if negb (Z.land b (Z.shiftl 1 j) =? 0)
                     then [to_int (i * 8 + j)] else [])
           [0; 1; 2; 3; 4; 5; 6; 7].

Fixpoint scan_features (m : mapping) (hdr : Z) (i : Z) (n : nat)
  : outcome (list Z) :=
  match n with
  | O => Ret []
  | S k =>
      b ← header_features m hdr i;
      rest ← scan_features m hdr (i + 1) k;
      Ret (scan_byte i b ++ rest)
  end.

(** [for (auto& feature : features) { insert(feature, *p); ++p; }] *)
Fixpoint insert_sections (m : mapping) (p : Z) (features : list Z)
    (mp : gmap Z SectionDesc) : outcome (gmap Z SectionDesc) :=
  match features with
  | [] => Ret mp
  | feature :: rest =>
      d ← read_SectionDesc m p;
      insert_sections m (p + 16) rest (map_insert feature d mp)
  end.

Definition FeatureSectionDescriptors (m : mapping) (r : RecordFileReader)
  : outcome (gmap Z SectionDesc * RecordFileReader) :=
  if decide (feature_sections_ r = ∅) then
    let header := FileHeader in
    features ← scan_features m header 0 sizeof_FileHeader_features;
    data ← header_data m header;
    let feature_section_offset := wrap64 (offset data + size data) in
    mp ← insert_sections m feature_section_offset features
           (feature_sections_ r);
    Ret (mp, set_feature_sections r mp)
  else Ret (feature_sections_ r, r).

(** Modelled from the spec: [DataAtOffset] is declared in record_file.h,
    which is not among the sources; a section is located at
    [mmap_base + offset]. *)
Definition DataAtOffset (off : Z) : Z := off.

(** [std::string(const char* )]: the bytes up to the first NUL. *)
Fixpoint c_str (bs : list byte) : outcome (list byte) :=
  match bs with
  | [] => Undefined
  | b :: rest =>
      if Byte.eqb b x00 then Ret []
      else s ← c_str rest; Ret (b :: s)
  end.

Definition read_c_string (m : mapping) (p : Z) : outcome (list byte) :=
  if p <? 0 then Undefined else c_str (drop (Z.to_nat p) m).

(** Modelled from the spec: [MoveFromBinaryFormat] is defined in utils.h,
    which is not among the sources; at its two call sites it reads a
    4-byte integer at the cursor and advances the cursor by 4.  It is
    given the cursor alone, never the end of the section. *)
Definition MoveFromBinaryFormat_u32 (m : mapping) (p : Z)
  : outcome (Z * Z) :=
  v ← read_u32 m p; Ret (v, p + 4).

(** The [for] loop of [ReadCmdlineFeature], [n] iterations left. *)
Fixpoint read_args (m : mapping) (end_ p : Z) (n : nat)
    (cmdline : list (list byte)) : outcome (list (list byte)) :=
  match n with
  | O => Ret cmdline
  | S k =>
      '(len, p) ← MoveFromBinaryFormat_u32 m p;
      _ ← CHECK (p + len <=? end_);
      s ← read_c_string m p;
      read_args m end_ (p + len) k (cmdline ++ [s])
  end.

Definition ReadCmdlineFeature (m : mapping) (r : RecordFileReader)
  : outcome (list (list byte) * RecordFileReader) :=
  '(section_map, r) ← FeatureSectionDescriptors m r;
  match section_map !! FEAT_CMDLINE with
  | None => Ret ([], r)
  | Some section =>
      let p := DataAtOffset (offset section) in
      let end_ := DataAtOffset (wrap64 (offset section + size section)) in
      '(arg_count, p) ← MoveFromBinaryFormat_u32 m p;
      _ ← CHECK (p <=? end_);
      cmdline ← read_args m end_ p (Z.to_nat arg_count) [];
      Ret (cmdline, r)
  end.
End Reader.

(** ** Life cycle: the descriptor and the mapping

    The system calls the reader makes, in the order it makes them, each
    with the value the kernel returned.  What a call returns is the
    kernel's choice: [kernel] maps the history and the call to its
    result.  [PLOG(ERROR)] lines are not part of the model. *)

Inductive syscall :=
| sys_open (path : string)
| sys_lseek_end (fd : Z)
| sys_mmap (len : Z) (fd : Z)
| sys_munmap (addr : Z) (len : Z)
| sys_close (fd : Z).

Definition trace := list (syscall * Z).

(** [MAP_FAILED] is [(void* )-1]; [nullptr] is 0. *)
Definition MAP_FAILED : Z := -1.
Definition nullptr : Z := 0.

(** The descriptors a history leaves open: [open] that succeeded adds
    its result, [close] gives the descriptor back to the kernel (on Linux
    also when it reports an error). *)
Fixpoint open_fds (t : trace) (fds : gset Z) : gset Z :=
  match t with
  | [] => fds
  | (sys_open _, fd) :: t' =>
      open_fds t' (if fd =? -1 then fds else {[fd]} ∪ fds)
  | (sys_close fd, _) :: t' => open_fds t' (fds ∖ {[fd]})
  | _ :: t' => open_fds t' fds
  end.

Section Lifecycle.
Variable kernel : trace -> syscall -> Z.

Definition sys (A : Type) : Type := trace -> A * trace.

Definition sys_ret {A} (a : A) : sys A := fun t => (a, t).
Definition sys_bind {A B} (c : sys A) (k : A -> sys B) : sys B :=
  fun t => let (a, t') := c t in k a t'.
Definition call (c : syscall) : sys Z :=
  fun t => let r := kernel t c in (r, t ++ [(c, r)]).

Local Notation "x <- c ;; k" := (sys_bind c (fun x => k))
  (at level 100, c at next level, right associativity).

(** The constructor. *)
Definition new_RecordFileReader (filename : string) (fd : Z)
  : RecordFileReader :=
  {| filename_ := filename; record_fd_ := fd;
     mmap_addr_ := nullptr; mmap_len_ := 0; feature_sections_ := ∅ |}.

Definition Close (r : RecordFileReader) : sys (bool * RecordFileReader) :=
  let result := true in
  rc1 <- call (sys_munmap (mmap_addr_ r) (mmap_len_ r)) ;;
  let result := if rc1 =? -1 then false else result in
  rc2 <- call (sys_close (record_fd_ r)) ;;
  let result := if rc2 =? -1 then false else result in
  sys_ret (result,
           {| filename_ := filename_ r; record_fd_ := -1;
              mmap_addr_ := mmap_addr_ r; mmap_len_ := mmap_len_ r;
              feature_sections_ := feature_sections_ r |}).

(** [~RecordFileReader()] *)
Definition destroy (r : RecordFileReader) : sys unit :=
  if negb (record_fd_ r =? -1) then
    _ <- Close r ;; sys_ret tt
  else sys_ret tt.

Definition MmapFile (r : RecordFileReader) : sys (bool * RecordFileReader) :=
  file_size <- call (sys_lseek_end (record_fd_ r)) ;;
  if file_size =? -1 then sys_ret (false, r)
  else
    let mmap_len := wrap64 file_size in
    mmap_addr <- call (sys_mmap mmap_len (record_fd_ r)) ;;
    if mmap_addr =? MAP_FAILED then sys_ret (false, r)
    else
      sys_ret (true,
               {| filename_ := filename_ r; record_fd_ := record_fd_ r;
                  mmap_addr_ := mmap_addr; mmap_len_ := mmap_len;
                  feature_sections_ := feature_sections_ r |}).

(** [CreateInstance]: [None] is the [nullptr] result.  On the early
    return the [unique_ptr] goes out of scope and destroys the reader. *)
Definition CreateInstance (filename : string)
  : sys (option RecordFileReader) :=
  fd <- call (sys_open filename) ;;
  if fd =? -1 then sys_ret None
  else
    let reader := new_RecordFileReader filename fd in
    mapped <- MmapFile reader ;;
    let (ok, reader) := (mapped : bool * RecordFileReader) in
    if negb ok then
      _ <- destroy reader ;; sys_ret None
    else sys_ret (Some reader).
End Lifecycle.

(** Little-endian encoding, the inverse of [le_value]. *)
Definition byte_of_Z (z : Z) : byte :=
  default x00 (Byte.of_N (Z.to_N (z mod 256))).

Fixpoint le_bytes (n : nat) (z : Z) : list byte :=
  match n with
  | O => []
  | S k => byte_of_Z z :: le_bytes k (z / 256)
  end.

(** * Notions used in the statements *)

(** The length prefixes present in a data region: the cursor positions
    with the length declared there, from [p] until the cursor reaches
    [end_]. *)
Inductive walk_layout (m : mapping) (end_ : Z) : Z -> list (Z * Z) -> Prop :=
| walk_layout_end (p : Z) :
    end_ <= p -> walk_layout m end_ p []
| walk_layout_step (p hsz : Z) (rest : list (Z * Z)) :
    p < end_ -> read_u16 m (p + 6) = Ret hsz ->
    walk_layout m end_ (p + hsz) rest ->
    walk_layout m end_ p ((p, hsz) :: rest).

(** The positions the cursor takes, starting from [begin]. *)
Inductive cursor (m : mapping) (end_ begin : Z) : Z -> Prop :=
| cursor_begin : cursor m end_ begin begin
| cursor_next (p hsz : Z) :
    cursor m end_ begin p -> p < end_ -> read_u16 m (p + 6) = Ret hsz ->
    cursor m end_ begin (p + hsz).

(** The record decoded from the prefix [rec]. *)
Definition decode_at
    (ReadRecordFromBuffer : perf_event_attr -> mapping -> Z -> Record_)
    (attr : perf_event_attr) (m : mapping) (rec : Z * Z) : Record_ :=
  ReadRecordFromBuffer attr m (fst rec).

Definition fits (end_ : Z) (rec : Z * Z) : bool :=
  fst rec + snd rec <=? end_.

(** The feature ids of a bitmap, in the words of the format: the
    indices [k] of the set bits, bit [k] being bit [k mod 8] of byte
    [k / 8], in increasing order. *)
Definition bit_set (bitmap : list Z) (k : Z) : bool :=
  match bitmap !! Z.to_nat (k / 8) with
  | Some b => Z.testbit b (k mod 8)
  | None => false
  end.

Definition feature_ids (bitmap : list Z) : list Z :=
  filter (fun k => bit_set bitmap k = true)
         (seqZ 0 (8 * Z.of_nat (length bitmap))).

(** [bit_set] for a bitmap whose first byte has index [i]. *)
Definition bit_set_from (i : Z) (bs : list Z) (k : Z) : bool :=
  (8 * i <=? k) &&
  match bs !! Z.to_nat (k / 8 - i) with
  | Some b => Z.testbit b (k mod 8)
  | None => false
  end.

(** A command line section whose arguments are NUL-terminated inside
    their declared length: for each argument its length, its text, a
    terminating NUL and padding, the length covering text, NUL and
    padding. *)
Fixpoint encode_args (args : list (list byte * list byte)) : list byte :=
  match args with
  | [] => []
  | (text, pad) :: rest =>
      le_bytes 4 (Z.of_nat (length text + 1 + length pad))
        ++ text ++ [x00] ++ pad ++ encode_args rest
  end.


(** Neither record is ordered before the other. *)
Definition incomparable {L : Layout} (a b : Record_) : Prop :=
  IsRecordHappensBefore a b = false /\ IsRecordHappensBefore b a = false.

(** What [std::sort] leaves: no element is ordered before one that
    precedes it. *)
Definition sorted_by {A} (lt : A -> A -> bool) (l : list A) : Prop :=
  StronglySorted (fun a b => lt b a = false) l.

(** Two records in the order the reader promises: the earlier time
    first, and at equal times no sample record before another kind. *)
Definition in_time_order {L : Layout} (a b : Record_) : Prop :=
  record_time a <= record_time b /\
  (record_time a = record_time b -> is_sample a = true -> is_sample b = true).

(** * Fixtures *)

(** A kernel whose [open] gives descriptor 3 and whose [mmap] fails. *)
Definition failing_mmap_kernel (t : trace) (c : syscall) : Z :=
  match c with
  | sys_open _ => 3
  | sys_lseek_end _ => 100
  | sys_mmap _ _ => MAP_FAILED
  | sys_munmap _ _ => -1
  | sys_close _ => 0
  end.

(** Building test files: a perf.data header in the layout
    [perf_data_layout]. *)

Definition zeros (n : nat) : list byte := replicate n x00.

Definition desc_bytes (d : SectionDesc) : list byte :=
  le_bytes 8 (offset d) ++ le_bytes 8 (size d).

(** magic, header_size, attr_size, attrs, data, event_types, features:
    104 bytes. *)
Definition header_bytes (attr_size : Z) (attrs data : SectionDesc)
    (features : list byte) : list byte :=
  zeros 8 ++ le_bytes 8 104 ++ le_bytes 8 attr_size
    ++ desc_bytes attrs ++ desc_bytes data ++ zeros 16
    ++ take 32 (features ++ zeros 32).

(** A [FileAttr]: [perf_event_attr] (112 bytes) then [ids]. *)
Definition file_attr_bytes (sample_type flags : Z) (ids : SectionDesc)
  : list byte :=
  zeros 24 ++ le_bytes 8 sample_type ++ zeros 8 ++ le_bytes 8 flags
    ++ zeros 64 ++ desc_bytes ids.

(** A raw record: [type], [misc], [size], then an 8-byte time and
    padding up to [present] bytes. *)
Definition record_bytes (ty sz time : Z) (present : nat) : list byte :=
  take present
    (le_bytes 4 ty ++ le_bytes 2 0 ++ le_bytes 2 sz ++ le_bytes 8 time
       ++ zeros present).

Definition value_or_0 (o : outcome Z) : Z :=
  match o with Ret v => v | _ => 0 end.

(** A decoder for the test files: the time is the 8-byte integer that
    follows the header. *)
Definition test_decoder (attr : perf_event_attr) (m : mapping) (p : Z)
  : Record_ :=
  {| header := {| type := value_or_0 (read_u32 m p);
                  misc := value_or_0 (read_u16 m (p + 4));
                  hsize := value_or_0 (read_u16 m (p + 6)) |};
     sample_id_time := value_or_0 (read_u64 m (p + 8));
     SampleRecord_time := value_or_0 (read_u64 m (p + 8)) |}.

(** A sort for the test files: insertion sort. *)
Fixpoint sort_insert (lt : Record_ -> Record_ -> bool) (x : Record_)
    (l : list Record_) : list Record_ :=
  match l with
  | [] => [x]
  | y :: l' => if lt y x then y :: sort_insert lt x l' else x :: l
  end.

Definition test_sort (lt : Record_ -> Record_ -> bool) (l : list Record_)
  : list Record_ :=
  foldr (sort_insert lt) [] l.

(** No attribute: [attrs.size = 0]. *)
Definition file_without_attrs : mapping :=
  header_bytes 128 {| offset := 104; size := 0 |}
    {| offset := 104; size := 0 |} [].

(** One attribute ([PERF_SAMPLE_TIME], [sample_id_all]); four records at
    232, 248, 264 and 280, the last one declaring 24 bytes where 8 are
    left in the data section; then the descriptors of features 2 and 5. *)
Definition file_with_records (sample_type flags : Z) : mapping :=
  header_bytes 128 {| offset := 104; size := 128 |}
    {| offset := 232; size := 56 |} [byte_of_Z 36]
  ++ file_attr_bytes sample_type flags {| offset := 0; size := 0 |}
  ++ record_bytes 1 16 5 16 ++ record_bytes 9 16 3 16
  ++ record_bytes 3 16 3 16 ++ record_bytes 9 24 7 8
  ++ desc_bytes {| offset := 100; size := 20 |}
  ++ desc_bytes {| offset := 200; size := 8 |}.

Definition sample_file : mapping := file_with_records 4 262144.

(** A data section whose first record declares a length of zero. *)
Definition file_with_empty_record : mapping :=
  header_bytes 128 {| offset := 104; size := 128 |}
    {| offset := 232; size := 16 |} []
  ++ file_attr_bytes 4 262144 {| offset := 0; size := 0 |}
  ++ record_bytes 1 0 5 16.

Definition test_attr : perf_event_attr :=
  {| sample_type := 4; sample_id_all := true; attr_bytes := [] |}.

Definition test_reader : RecordFileReader :=
  new_RecordFileReader "perf.data" 3.

(** The feature bitmap of [sample_file]: bits 2 and 5. *)
Definition sample_bitmap : list Z := 36 :: replicate 31 0.

Definition sample_table : list SectionDesc :=
  [{| offset := 100; size := 20 |}; {| offset := 200; size := 8 |}].

(** A file with the command line feature alone (bit 11): the header, one
    attribute, an empty data section, the descriptor of the section at
    232, the section at 248 and whatever follows it. *)
Definition cmdline_file (declared : SectionDesc) (section tail : list byte)
  : mapping :=
  header_bytes 128 {| offset := 104; size := 128 |}
    {| offset := 232; size := 0 |} [x00; byte_of_Z 8]
  ++ file_attr_bytes 4 262144 {| offset := 0; size := 0 |}
  ++ desc_bytes declared ++ section ++ tail.

Definition text (s : string) : list byte := list_byte_of_string s.

(** "abc" and "de", each with its NUL inside the declared length. *)
Definition cmdline_terminated : mapping :=
  cmdline_file {| offset := 248; size := 19 |}
    (le_bytes 4 2 ++ encode_args [(text "abc", []); (text "de", [])]) [].





(** One attribute at 104 whose [ids] section, at 232, holds the
    identifiers 7 and 9. *)
Definition ids_file : mapping :=
  header_bytes 128 {| offset := 104; size := 128 |}
    {| offset := 248; size := 0 |} []
  ++ file_attr_bytes 4 262144 {| offset := 232; size := 16 |}
  ++ le_bytes 8 7 ++ le_bytes 8 9.

(** A kernel whose [open] fails. *)
Definition failing_open_kernel (t : trace) (c : syscall) : Z :=
  match c with
  | sys_open _ => -1
  | _ => 0
  end.

(** A kernel that gives descriptor 3, a file of 4096 bytes and a mapping
    at 65536; its [munmap] fails, its [close] succeeds. *)
Definition working_kernel (t : trace) (c : syscall) : Z :=
  match c with
  | sys_open _ => 3
  | sys_lseek_end _ => 4096
  | sys_mmap _ _ => 65536
  | sys_munmap _ _ => -1
  | sys_close _ => 0
  end.

(** A reader whose feature table is already built and holds the
    command line section [sec]. *)
Definition reader_with_cmdline (sec : SectionDesc) : RecordFileReader :=
  set_feature_sections test_reader {[ 11 := sec ]}.

(** The reader [CreateInstance] returns under [working_kernel]: the
    file is mapped at 65536. *)
Definition mapped_reader : RecordFileReader :=
  {| filename_ := "perf.data"; record_fd_ := 3;
     mmap_addr_ := 65536; mmap_len_ := 4096; feature_sections_ := ∅ |}.

(** [sample_file] with another [data.size] in its header. *)
Definition file_with_data_size (data_size : Z) : mapping :=
  header_bytes 128 {| offset := 104; size := 128 |}
    {| offset := 232; size := data_size |} [byte_of_Z 36]
  ++ file_attr_bytes 4 262144 {| offset := 0; size := 0 |}
  ++ record_bytes 1 16 5 16 ++ record_bytes 9 16 3 16
  ++ record_bytes 3 16 3 16 ++ record_bytes 9 24 7 8
  ++ desc_bytes {| offset := 100; size := 20 |}
  ++ desc_bytes {| offset := 200; size := 8 |}.

(** A header with [attr_size = 64] and [attrs.size = 256]: four
    attributes are counted, [sizeof(FileAttr) = 128] bytes apart. *)
Definition file_with_small_attr_size : mapping :=
  header_bytes 64 {| offset := 104; size := 256 |}
    {| offset := 616; size := 0 |} []
  ++ file_attr_bytes 4 262144 {| offset := 0; size := 0 |}
  ++ file_attr_bytes 4 0 {| offset := 0; size := 0 |}
  ++ file_attr_bytes 0 262144 {| offset := 0; size := 0 |}
  ++ file_attr_bytes 0 0 {| offset := 0; size := 0 |}.

(** A header with [attr_size = 256] and [attrs.size = 768]: three
    attributes are counted, again 128 bytes apart. *)
Definition file_with_large_attr_size : mapping :=
  header_bytes 256 {| offset := 104; size := 768 |}
    {| offset := 872; size := 0 |} []
  ++ zeros 768.

(** * Properties *)

(** ** Life cycle *)

Lemma open_fds_snoc_close (t : trace) (fd rc : Z) (fds : gset Z) :
  open_fds (t ++ [(sys_close fd, rc)]) fds = open_fds t fds ∖ {[fd]}.
Proof.
  revert fds. induction t as [|[c r] t IH]; intros fds; simpl.
  - reflexivity.
  - destruct c; apply IH.
Qed.

Lemma Close_run (kernel : trace -> syscall -> Z) (r : RecordFileReader)
    (t : trace) :
  exists b rc1 rc2,
    Close kernel r t =
      ((b, {| filename_ := filename_ r; record_fd_ := -1;
              mmap_addr_ := mmap_addr_ r; mmap_len_ := mmap_len_ r;
              feature_sections_ := feature_sections_ r |}),
       (t ++ [(sys_munmap (mmap_addr_ r) (mmap_len_ r), rc1)])
         ++ [(sys_close (record_fd_ r), rc2)]).
Proof.
  unfold Close, sys_bind, call, sys_ret. eauto.
Qed.

(** C10.  After [Close()] has returned, whatever [munmap] and [close]
    answered, [record_fd_] is -1, and the destructor run after it makes
    no system call at all: no second [munmap], no second [close]. *)
Theorem Close_sets_fd_and_destructor_is_silent
    (kernel : trace -> syscall -> Z) (r : RecordFileReader) (t : trace) :
  record_fd_ (snd (fst (Close kernel r t))) = -1 /\
  destroy kernel (snd (fst (Close kernel r t))) (snd (Close kernel r t))
    = (tt, snd (Close kernel r t)).
Proof.
  destruct (Close_run kernel r t) as (b & rc1 & rc2 & E).
  rewrite E. simpl. split; reflexivity.
Qed.

Lemma CreateInstance_unfold (kernel : trace -> syscall -> Z)
    (filename : string) (t : trace) :
  CreateInstance kernel filename t =
    let fd := kernel t (sys_open filename) in
    let t1 := t ++ [(sys_open filename, fd)] in
    if fd =? -1 then (None, t1)
    else
      let res := MmapFile kernel (new_RecordFileReader filename fd) t1 in
      if negb (fst (fst res))
      then (None, snd (destroy kernel (snd (fst res)) (snd res)))
      else (Some (snd (fst res)), snd res).
Proof.
  unfold CreateInstance, sys_bind, call, sys_ret. simpl.
  destruct (kernel t (sys_open filename) =? -1); [reflexivity|].
  destruct (MmapFile _ _ _) as [[ok r] t2]. simpl.
  destruct ok; simpl; [reflexivity|].
  destruct (destroy kernel r t2) as [[] t3]. reflexivity.
Qed.

Lemma MmapFile_failure (kernel : trace -> syscall -> Z)
    (r : RecordFileReader) (t : trace) :
  fst (fst (MmapFile kernel r t)) = false ->
  snd (fst (MmapFile kernel r t)) = r /\
  exists mid, snd (MmapFile kernel r t) = t ++ mid /\
    forall c rc, (c, rc) ∈ mid -> forall fd, c <> sys_close fd.
Proof.
  unfold MmapFile, sys_bind, call, sys_ret.
  destruct (kernel t (sys_lseek_end (record_fd_ r)) =? -1); simpl.
  - intros _. split; [reflexivity|]. eexists. split; [reflexivity|].
    intros c rc Hin fd. apply list_elem_of_singleton in Hin.
    inversion Hin; subst. discriminate.
  - destruct (_ =? MAP_FAILED); simpl; [|discriminate].
    intros _. split; [reflexivity|]. eexists. split.
    + rewrite <- app_assoc. reflexivity.
    + intros c rc Hin fd. simpl in Hin.
      apply elem_of_cons in Hin as [Hin|Hin].
      * inversion Hin; subst. discriminate.
      * apply list_elem_of_singleton in Hin. inversion Hin; subst.
        discriminate.
Qed.

(** C8.  When [open] has given a descriptor and [MmapFile] then fails,
    [CreateInstance] returns [nullptr], and before it returns the
    destructor of the half-built reader has called [close] on that
    descriptor, which is no longer among the open ones. *)
Theorem CreateInstance_map_failure_releases_fd
    (kernel : trace -> syscall -> Z) (filename : string) (t : trace) (fd : Z) :
  kernel t (sys_open filename) = fd ->
  fd <> -1 ->
  fst (fst (MmapFile kernel (new_RecordFileReader filename fd)
              (t ++ [(sys_open filename, fd)]))) = false ->
  fst (CreateInstance kernel filename t) = None /\
  (exists mid rc1 rc2,
     snd (CreateInstance kernel filename t) =
       ((t ++ [(sys_open filename, fd)]) ++ mid)
         ++ [(sys_munmap nullptr 0, rc1); (sys_close fd, rc2)]
     /\ forall c r, (c, r) ∈ mid -> c <> sys_close fd) /\
  fd ∉ open_fds (snd (CreateInstance kernel filename t)) ∅.
Proof.
  intros Hopen Hfd Hmap.
  assert (Hne : (fd =? -1) = false) by (apply Z.eqb_neq; exact Hfd).
  rewrite CreateInstance_unfold. cbv zeta. rewrite Hopen, Hne, Hmap.
  destruct (MmapFile_failure _ _ _ Hmap) as (Er & mid & Et & Hmid).
  rewrite Er, Et. cbn [negb]. cbv iota.
  unfold destroy.
  change (record_fd_ (new_RecordFileReader filename fd)) with fd.
  rewrite Hne. cbn [negb]. cbv iota. unfold sys_bind. cbv beta.
  destruct (Close_run kernel (new_RecordFileReader filename fd)
              ((t ++ [(sys_open filename, fd)]) ++ mid))
    as (b & rc1 & rc2 & E).
  rewrite E. simpl.
  split; [reflexivity|]. split.
  - exists mid, rc1, rc2. split.
    + rewrite <- !app_assoc. reflexivity.
    + intros c r Hin. apply (Hmid c r Hin).
  - rewrite open_fds_snoc_close. apply not_elem_of_difference. right.
    apply elem_of_singleton. reflexivity.
Qed.

Lemma CreateInstance_map_failure_witness :
  fst (CreateInstance failing_mmap_kernel "perf.data" []) = None /\
  3 ∉ open_fds (snd (CreateInstance failing_mmap_kernel "perf.data" [])) ∅.
Proof.
  pose proof (CreateInstance_map_failure_releases_fd
                failing_mmap_kernel "perf.data" [] 3
                eq_refl ltac:(lia) eq_refl) as (H1 & _ & H3).
  split; [exact H1 | exact H3].
Defined.

(** ** Loads *)

Lemma byte_val_range (b : byte) : 0 <= byte_val b < 256.
Proof.
  unfold byte_val. pose proof (Byte.to_N_bounded b) as Hb.
  change (N.le (Byte.to_N b) 255) in Hb. lia.
Qed.

Lemma le_value_nonneg (bs : list byte) : 0 <= le_value bs.
Proof.
  induction bs as [|b bs IH]; simpl; [lia|].
  pose proof (byte_val_range b). lia.
Qed.

Lemma load_in_range (m : mapping) (p : Z) :
  0 <= p < Z.of_nat (length m) -> is_Some (load m p).
Proof.
  intros Hp. unfold load.
  destruct (p <? 0) eqn:E; [apply Z.ltb_lt in E; lia|].
  apply lookup_lt_is_Some. lia.
Qed.

Lemma load_bytes_in_range (m : mapping) (n : nat) : forall p,
  0 <= p -> p + Z.of_nat n <= Z.of_nat (length m) ->
  is_Some (load_bytes m p n).
Proof.
  induction n as [|n IH]; intros p Hp Hn; simpl; [eauto|].
  destruct (load_in_range m p) as [b ->]; [lia|].
  destruct (IH (p + 1)) as [bs ->]; [lia|lia|]. eauto.
Qed.

Lemma read_uint_in_range (n : nat) (m : mapping) (p : Z) :
  0 <= p -> p + Z.of_nat n <= Z.of_nat (length m) ->
  exists v, read_uint n m p = Ret v.
Proof.
  intros Hp Hn. unfold read_uint.
  destruct (load_bytes_in_range m n p Hp Hn) as [bs ->]. eauto.
Qed.

Lemma read_uint_nonneg (n : nat) (m : mapping) (p v : Z) :
  read_uint n m p = Ret v -> 0 <= v.
Proof.
  unfold read_uint. destruct (load_bytes m p n); [|discriminate].
  intros [= <-]. apply le_value_nonneg.
Qed.

Lemma bind_Ret_inv {A B} (o : outcome A) (f : A -> outcome B) (b : B) :
  o ≫= f = Ret b -> exists a, o = Ret a /\ f a = Ret b.
Proof. destruct o; simpl; try discriminate. eauto. Qed.

Lemma read_SectionDesc_inv (m : mapping) (p : Z) (d : SectionDesc) :
  read_SectionDesc m p = Ret d ->
  read_u64 m p = Ret (offset d) /\ read_u64 m (p + 8) = Ret (size d).
Proof.
  unfold read_SectionDesc. intros Hd.
  apply bind_Ret_inv in Hd as (o & Ho & Hd).
  apply bind_Ret_inv in Hd as (sz & Hs & Hd).
  injection Hd as <-. simpl. auto.
Qed.

(** ** IdsForAttr *)

Section IdsForAttr.
Context {L : Layout}.

Lemma read_ids_in_range (m : mapping) (n : nat) : forall id,
  0 <= id -> id + 8 * Z.of_nat n <= Z.of_nat (length m) ->
  exists ids, read_ids m id n = Ret ids /\ length ids = n /\
    forall (i : nat) (v : Z), ids !! i = Some v ->
      read_u64 m (id + 8 * Z.of_nat i) = Ret v.
Proof.
  induction n as [|n IH]; intros id Hid Hn; simpl.
  - exists []. split; [reflexivity|]. split; [reflexivity|].
    intros i v Hi. rewrite lookup_nil in Hi. discriminate.
  - destruct (read_uint_in_range 8 m id) as [v Hv]; [lia|lia|].
    fold read_u64 in Hv. rewrite Hv. simpl.
    destruct (IH (id + 8)) as (ids & Hids & Hlen & Hval); [lia|lia|].
    rewrite Hids. simpl. exists (v :: ids).
    split; [reflexivity|]. split; [simpl; congruence|].
    intros [|i] w Hi; simpl in Hi.
    + injection Hi as <-. replace (id + 8 * Z.of_nat 0) with id by lia.
      exact Hv.
    + replace (id + 8 * Z.of_nat (S i)) with (id + 8 + 8 * Z.of_nat i)
        by lia.
      apply Hval. exact Hi.
Qed.

(** C7.  For an attribute record [attr] whose [ids] descriptor is [d]
    and whose identifier array lies inside the mapping, [IdsForAttr]
    returns [d.size / 8] values, the [i]-th being the 8-byte integer
    stored at [mmap_addr_ + d.offset + 8 * i]: the order of the file. *)
Theorem IdsForAttr_on_disk_order (m : mapping) (attr : Z) (d : SectionDesc) :
  read_SectionDesc m (attr + offsetof_FileAttr_ids) = Ret d ->
  offset d + 8 * (size d / 8) <= Z.of_nat (length m) ->
  exists ids,
    IdsForAttr m attr = Ret ids /\
    Z.of_nat (length ids) = size d / 8 /\
    forall (i : nat) (v : Z), ids !! i = Some v ->
      read_u64 m (offset d + 8 * Z.of_nat i) = Ret v.
Proof.
  intros Hd Hin. unfold IdsForAttr. rewrite Hd. simpl.
  apply read_SectionDesc_inv in Hd as [Ho Hs].
  apply read_uint_nonneg in Ho, Hs.
  assert (0 <= size d / 8) by (apply Z.div_pos; lia).
  destruct (read_ids_in_range m (Z.to_nat (size d / 8)) (offset d))
    as (ids & Hids & Hlen & Hval); [lia|lia|].
  exists ids. split; [exact Hids|]. split; [lia|exact Hval].
Qed.
End IdsForAttr.

Lemma IdsForAttr_on_disk_order_witness :
  exists ids,
    IdsForAttr (L:=perf_data_layout) ids_file 104 = Ret ids /\
    Z.of_nat (length ids) = 2 /\
    ids !! 0%nat = Some 7 /\ ids !! 1%nat = Some 9.
Proof.
  destruct (IdsForAttr_on_disk_order (L:=perf_data_layout) ids_file 104
              {| offset := 232; size := 16 |} eq_refl
              ltac:(vm_compute; discriminate))
    as (ids & Hids & Hlen & Hval).
  exists ids. split; [exact Hids|]. split; [exact Hlen|].
  change (size {| offset := 232; size := 16 |} / 8) with 2 in Hlen.
  destruct ids as [|a [|b ids]]; simpl in Hlen; try lia.
  pose proof (Hval 0%nat a eq_refl) as Ha.
  pose proof (Hval 1%nat b eq_refl) as Hb.
  vm_compute in Ha, Hb. injection Ha as <-. injection Hb as <-.
  split; reflexivity.
Defined.

(** ** IsRecordHappensBefore *)

Section ComparatorFacts.
Context {L : Layout}.

Lemma IsRecordHappensBefore_spec (r1 r2 : Record_) :
  IsRecordHappensBefore r1 r2 = true <->
  record_time r1 < record_time r2 \/
  (record_time r1 = record_time r2 /\
   is_sample r1 = false /\ is_sample r2 = true).
Proof.
  unfold IsRecordHappensBefore.
  destruct (record_time r1 =? record_time r2) eqn:Et; simpl.
  - apply Z.eqb_eq in Et.
    destruct (is_sample r1), (is_sample r2); simpl; split;
      try discriminate; try (intros [?|(_ & ? & ?)]; (lia || discriminate));
      intros _; right; auto.
  - apply Z.eqb_neq in Et. rewrite Z.ltb_lt. split; [auto|].
    intros [?|(? & _)]; [assumption|contradiction].
Qed.

Lemma IsRecordHappensBefore_irrefl (r : Record_) :
  IsRecordHappensBefore r r = false.
Proof.
  apply not_true_is_false. rewrite IsRecordHappensBefore_spec.
  intros [?|(_ & ? & ?)]; [lia|congruence].
Qed.

Lemma IsRecordHappensBefore_same_kind (r1 r2 : Record_) :
  record_time r1 = record_time r2 -> is_sample r1 = is_sample r2 ->
  IsRecordHappensBefore r1 r2 = false /\ IsRecordHappensBefore r2 r1 = false.
Proof.
  intros Ht Hk. split; apply not_true_is_false;
    rewrite IsRecordHappensBefore_spec;
    intros [?|(_ & ? & ?)]; (lia || congruence).
Qed.
End ComparatorFacts.

(** ** DataSection *)

Lemma walk_layout_count (m : mapping) (end_ p : Z) (lay : list (Z * Z)) :
  walk_layout m end_ p lay ->
  match last lay with
  | None => lay = []
  | Some rec =>
      if fits end_ rec
      then filter (fun rec => fits end_ rec = true) lay = lay
      else filter (fun rec => fits end_ rec = true) lay ++ [rec] = lay
  end.
Proof.
  induction 1 as [p Hp | p hsz rest Hp Hsz Hrest IH]; [reflexivity|].
  destruct rest as [|next rest'].
  - simpl. unfold filter; simpl. destruct (fits end_ (p, hsz)) eqn:Ef.
    + rewrite decide_True by reflexivity. reflexivity.
    + rewrite decide_False by discriminate. reflexivity.
  - assert (Hfit : fits end_ (p, hsz) = true).
    { inversion Hrest; subst. unfold fits; simpl. apply Z.leb_le. lia. }
    rewrite last_cons_cons. rewrite filter_cons_True by exact Hfit.
    destruct (last (next :: rest')) as [rec|] eqn:El; [|discriminate].
    destruct (fits end_ rec); simpl; rewrite IH; reflexivity.
Qed.

Section DataSectionFacts.
Context {L : Layout}.
Variable ReadRecordFromBuffer : perf_event_attr -> mapping -> Z -> Record_.
Variable std_sort :
  (Record_ -> Record_ -> bool) -> list Record_ -> list Record_.


Lemma walk_records_layout (attr : perf_event_attr) (m : mapping)
    (end_ p : Z) (lay : list (Z * Z)) :
  walk_layout m end_ p lay ->
  forall (fuel : nat) (acc : list Record_),
    (length lay <= fuel)%nat ->
    walk_records ReadRecordFromBuffer fuel attr m end_ p acc =
      Ret (acc ++ map (decode_at ReadRecordFromBuffer attr m)
                      (filter (fun rec => fits end_ rec = true) lay)).
Proof.
  induction 1 as [p Hp | p hsz rest Hp Hsz Hrest IH]; intros fuel acc Hfuel.
  - destruct fuel; simpl;
      (destruct (p <? end_) eqn:E; [apply Z.ltb_lt in E; lia|]);
      rewrite app_nil_r; reflexivity.
  - destruct fuel as [|fuel]; simpl in Hfuel; [lia|]. simpl.
    destruct (p <? end_) eqn:E; [|apply Z.ltb_ge in E; lia].
    rewrite Hsz. simpl. rewrite IH by lia.
    destruct (p + hsz <=? end_) eqn:Ef.
    + rewrite filter_cons_True by exact Ef. simpl.
      rewrite <- app_assoc. reflexivity.
    + rewrite filter_cons_False; [reflexivity|].
      unfold fits; simpl. rewrite Ef. discriminate.
Qed.

(** C3.  In a data region whose length prefixes are [lay] (cursor
    positions with the length declared at each, every step advancing the
    cursor by the declared length), the walk returns, in encounter
    order, one decoded record for each prefix whose declared length fits
    in the bytes left before the region's end; a prefix that does not fit
    adds nothing and raises nothing.  Only the last prefix can fail to
    fit, and then the records are one fewer than the prefixes. *)
Theorem walk_records_drops_truncated_record (attr : perf_event_attr)
    (m : mapping) (end_ p : Z) (lay : list (Z * Z)) (fuel : nat)
    (acc : list Record_) :
  walk_layout m end_ p lay ->
  (length lay <= fuel)%nat ->
  exists recs,
    walk_records ReadRecordFromBuffer fuel attr m end_ p acc
      = Ret (acc ++ recs) /\
    recs = map (decode_at ReadRecordFromBuffer attr m)
               (filter (fun rec => fits end_ rec = true) lay) /\
    (forall rec, last lay = Some rec -> fits end_ rec = false ->
       S (length recs) = length lay) /\
    (forall rec, last lay = Some rec -> fits end_ rec = true ->
       length recs = length lay).
Proof.
  intros Hlay Hfuel. eexists. split; [|split; [reflexivity|]].
  - apply walk_records_layout; assumption.
  - pose proof (walk_layout_count m end_ p lay Hlay) as Hc.
    rewrite length_map.
    split; intros rec Hlast Hfit; rewrite Hlast, Hfit in Hc.
    + rewrite <- Hc at 2. rewrite length_app. simpl. lia.
    + rewrite Hc. reflexivity.
Qed.

Lemma walk_records_positive (attr : perf_event_attr) (m : mapping)
    (end_ begin : Z) :
  (forall p, cursor m end_ begin p -> p < end_ ->
     exists hsz, read_u16 m (p + 6) = Ret hsz /\ 0 < hsz) ->
  forall (fuel : nat) (p : Z) (acc : list Record_),
    cursor m end_ begin p -> end_ - p <= Z.of_nat fuel ->
    exists recs,
      walk_records ReadRecordFromBuffer fuel attr m end_ p acc = Ret recs.
Proof.
  intros Hpos. induction fuel as [|fuel IH]; intros p acc Hc Hfuel; simpl.
  - destruct (p <? end_) eqn:E; [apply Z.ltb_lt in E; lia|]. eauto.
  - destruct (p <? end_) eqn:E; [|eauto]. apply Z.ltb_lt in E.
    destruct (Hpos p Hc E) as (hsz & Hsz & Hgt). rewrite Hsz. simpl.
    apply IH; [|lia]. eapply cursor_next; eassumption.
Qed.

Lemma walk_records_zero_length (attr : perf_event_attr) (m : mapping)
    (end_ p : Z) :
  p < end_ -> read_u16 m (p + 6) = Ret 0 ->
  forall (fuel : nat) (acc : list Record_),
    walk_records ReadRecordFromBuffer fuel attr m end_ p acc = OutOfFuel.
Proof.
  intros Hp Hz. induction fuel as [|fuel IH]; intros acc; simpl;
    (destruct (p <? end_) eqn:E; [|apply Z.ltb_ge in E; lia]).
  - reflexivity.
  - rewrite Hz. simpl. replace (p + 0) with p by lia. apply IH.
Qed.

Lemma walk_records_reaches (attr : perf_event_attr) (m : mapping)
    (end_ begin p : Z) :
  cursor m end_ begin p ->
  forall (fuel : nat) (acc : list Record_),
    walk_records ReadRecordFromBuffer fuel attr m end_ begin acc = OutOfFuel \/
    exists fuel' acc',
      walk_records ReadRecordFromBuffer fuel attr m end_ begin acc =
      walk_records ReadRecordFromBuffer fuel' attr m end_ p acc'.
Proof.
  induction 1 as [|p hsz Hc IH Hp Hsz]; intros fuel acc.
  - right. eauto.
  - destruct (IH fuel acc) as [Hout | (fuel' & acc' & E)]; [auto|].
    rewrite E. destruct fuel' as [|fuel']; simpl;
      (destruct (p <? end_) eqn:Elt; [|apply Z.ltb_ge in Elt; lia]).
    + auto.
    + rewrite Hsz. simpl. right. eauto.
Qed.

(** C9.  When the length prefix read at every position the cursor
    reaches is strictly positive, the walk over the data region returns:
    [end_ - begin] iterations are enough, the cursor moving forward by at
    least one byte each time.  A prefix of zero leaves the cursor where
    it is: when the cursor reaches one, the walk never ends, whatever
    the bound on its iterations. *)
Theorem walk_records_terminates_when_lengths_positive
    (attr : perf_event_attr) (m : mapping) (end_ begin : Z) :
  ((forall p, cursor m end_ begin p -> p < end_ ->
      exists hsz, read_u16 m (p + 6) = Ret hsz /\ 0 < hsz) ->
   forall (fuel : nat) (acc : list Record_),
     end_ - begin <= Z.of_nat fuel ->
     exists recs,
       walk_records ReadRecordFromBuffer fuel attr m end_ begin acc
         = Ret recs) /\
  (forall p, cursor m end_ begin p -> p < end_ ->
     read_u16 m (p + 6) = Ret 0 ->
     p + 0 = p /\
     forall (fuel : nat) (acc : list Record_),
       walk_records ReadRecordFromBuffer fuel attr m end_ begin acc
         = OutOfFuel).
Proof.
  split.
  - intros Hpos fuel acc Hfuel.
    apply (walk_records_positive attr m end_ begin Hpos);
      [apply cursor_begin | exact Hfuel].
  - intros p Hc Hp Hz. split; [lia|]. intros fuel acc.
    destruct (walk_records_reaches attr m end_ begin p Hc fuel acc)
      as [Hout | (fuel' & acc' & E)]; [exact Hout|].
    rewrite E. apply walk_records_zero_length; assumption.
Qed.

(** C1.  Once the first attribute has been read and the records have
    been materialized (by the walk from [mmap_addr_ + data.offset] to
    [mmap_addr_ + data.offset + data.size], both 64-bit sums),
    [DataSection] returns them sorted by
    [IsRecordHappensBefore] when the attribute has [PERF_SAMPLE_TIME] in
    [sample_type] and [sample_id_all] set, and in encounter order in
    every other case.  The comparator puts [r1] before [r2] exactly when
    the time of [r1] is smaller, or the times are equal, [r1] is not a
    sample record and [r2] is one; the time is that of the sample payload
    for a sample record and that of the sample_id suffix otherwise; with
    equal times and the same kind it orders neither before the other. *)
Theorem DataSection_sorts_iff_time_and_sample_id_all (fuel : nat)
    (r : RecordFileReader) (m : mapping) (file_attrs : list Z)
    (attr : perf_event_attr) (data : SectionDesc) (recs : list Record_) :
  AttrSection m = Ret file_attrs ->
  file_attrs <> [] ->
  read_perf_event_attr m (nth 0 file_attrs 0 + offsetof_FileAttr_attr)
    = Ret attr ->
  header_data m FileHeader = Ret data ->
  walk_records ReadRecordFromBuffer fuel attr m
    (ptr_add (mmap_addr_ r) (offset data + size data))
    (ptr_add (mmap_addr_ r) (offset data)) [] = Ret recs ->
  (Z.land (sample_type attr) PERF_SAMPLE_TIME <> 0 /\
   sample_id_all attr = true ->
   DataSection ReadRecordFromBuffer std_sort fuel r m
     = Ret (std_sort IsRecordHappensBefore recs)) /\
  (~ (Z.land (sample_type attr) PERF_SAMPLE_TIME <> 0 /\
      sample_id_all attr = true) ->
   DataSection ReadRecordFromBuffer std_sort fuel r m = Ret recs) /\
  (forall r1 r2,
     IsRecordHappensBefore r1 r2 = true <->
     record_time r1 < record_time r2 \/
     (record_time r1 = record_time r2 /\
      is_sample r1 = false /\ is_sample r2 = true)) /\
  (forall r,
     record_time r =
       if type (header r) =? PERF_RECORD_SAMPLE
       then SampleRecord_time r else sample_id_time r) /\
  (forall r1 r2,
     record_time r1 = record_time r2 -> is_sample r1 = is_sample r2 ->
     IsRecordHappensBefore r1 r2 = false /\
     IsRecordHappensBefore r2 r1 = false).
Proof.
  intros Hattrs Hne Hattr Hdata Hwalk.
  assert (Hrun : DataSection ReadRecordFromBuffer std_sort fuel r m =
            if negb (Z.land (sample_type attr) PERF_SAMPLE_TIME =? 0)
               && sample_id_all attr
            then Ret (std_sort IsRecordHappensBefore recs) else Ret recs).
  { unfold DataSection. rewrite Hattrs. simpl.
    destruct file_attrs as [|a rest]; [contradiction|]. simpl.
    simpl in Hattr. rewrite Hattr. simpl. rewrite Hdata. simpl.
    rewrite Hwalk. reflexivity. }
  split; [|split; [|split; [|split]]].
  - intros [Ht Hs]. rewrite Hrun, Hs.
    apply Z.eqb_neq in Ht. rewrite Ht. reflexivity.
  - intros Hn. rewrite Hrun.
    destruct (Z.land (sample_type attr) PERF_SAMPLE_TIME =? 0) eqn:Et;
      [reflexivity|].
    destruct (sample_id_all attr) eqn:Es; [|reflexivity].
    exfalso. apply Hn. apply Z.eqb_neq in Et. auto.
  - apply IsRecordHappensBefore_spec.
  - reflexivity.
  - apply IsRecordHappensBefore_same_kind.
Qed.

(** C2, as the code has it.  With a non-zero [attr_size] and
    [attrs.size / attr_size = 0], [DataSection] does not return: the
    [CHECK] on the number of attributes fails and ends the process.
    Neither an error nor an empty sequence reaches the caller. *)
Theorem DataSection_without_attrs_does_not_return (fuel : nat)
    (r : RecordFileReader) (m : mapping) (attrs : SectionDesc)
    (attr_size : Z) :
  header_attrs m FileHeader = Ret attrs ->
  header_attr_size m FileHeader = Ret attr_size ->
  attr_size <> 0 ->
  size attrs / attr_size = 0 ->
  DataSection ReadRecordFromBuffer std_sort fuel r m = Aborted /\
  ~ returns_to_caller (DataSection ReadRecordFromBuffer std_sort fuel r m).
Proof.
  intros Hattrs Hsize Hnz Hcount.
  assert (E : DataSection ReadRecordFromBuffer std_sort fuel r m = Aborted).
  { unfold DataSection, AttrSection. rewrite Hattrs. simpl.
    rewrite Hsize. simpl. apply Z.eqb_neq in Hnz. rewrite Hnz, Hcount.
    reflexivity. }
  split; [exact E|]. rewrite E. intros [a Ha]. discriminate.
Qed.
End DataSectionFacts.

(** *** DataSection on the test files *)

Lemma sample_file_layout :
  walk_layout sample_file 288 232 [(232, 16); (248, 16); (264, 16); (280, 24)].
Proof.
  apply walk_layout_step; [lia | reflexivity |].
  apply (walk_layout_step _ _ 248); [lia | reflexivity |].
  apply (walk_layout_step _ _ 264); [lia | reflexivity |].
  apply (walk_layout_step _ _ 280); [lia | reflexivity |].
  apply walk_layout_end. lia.
Qed.

Lemma sample_file_cursor (p : Z) :
  cursor sample_file 288 232 p ->
  p = 232 \/ p = 248 \/ p = 264 \/ p = 280 \/ p = 304.
Proof.
  induction 1 as [|p hsz Hc IH Hp Hsz]; [auto|].
  destruct IH as [->|[->|[->|[->| ->]]]]; try lia;
    vm_compute in Hsz; injection Hsz as <-; auto 6.
Qed.

Lemma sample_file_lengths_positive (p : Z) :
  cursor sample_file 288 232 p -> p < 288 ->
  exists hsz, read_u16 sample_file (p + 6) = Ret hsz /\ 0 < hsz.
Proof.
  intros Hc Hp.
  destruct (sample_file_cursor p Hc) as [->|[->|[->|[->| ->]]]]; try lia;
    eexists; (split; [vm_compute; reflexivity | lia]).
Qed.

Lemma walk_records_drops_truncated_record_witness :
  exists recs,
    walk_records test_decoder 4 test_attr sample_file 288 232 [] = Ret recs /\
    length recs = 3%nat.
Proof.
  destruct (walk_records_drops_truncated_record test_decoder test_attr
              sample_file 288 232
              [(232, 16); (248, 16); (264, 16); (280, 24)] 4 []
              sample_file_layout ltac:(simpl; lia))
    as (recs & Hwalk & _ & Hcount & _).
  exists recs. split; [exact Hwalk|].
  specialize (Hcount (280, 24) eq_refl eq_refl). simpl in Hcount. lia.
Defined.

Lemma walk_records_terminates_witness :
  (exists recs,
     walk_records test_decoder 56 test_attr sample_file 288 232 [] = Ret recs)
  /\ walk_records test_decoder 1000 test_attr file_with_empty_record 248 232 []
     = OutOfFuel.
Proof.
  split.
  - apply (proj1 (walk_records_terminates_when_lengths_positive
                    test_decoder test_attr sample_file 288 232)
             sample_file_lengths_positive).
    simpl. lia.
  - apply (proj2 (walk_records_terminates_when_lengths_positive
                    test_decoder test_attr file_with_empty_record 248 232)
             232 (cursor_begin _ _ _) ltac:(lia) eq_refl).
Defined.

Lemma DataSection_sorts_witness :
  (exists recs,
     length recs = 3%nat /\
     DataSection (L:=perf_data_layout) test_decoder test_sort 10
       mapped_reader sample_file
       = Ret (test_sort (IsRecordHappensBefore (L:=perf_data_layout)) recs) /\
     DataSection (L:=perf_data_layout) test_decoder test_sort 10
       mapped_reader (file_with_records 0 262144) = Ret recs) /\
  DataSection (L:=perf_data_layout) test_decoder test_sort 10
    mapped_reader (file_with_data_size (2 ^ 64 - 100)) = Ret [] /\
  DataSection (L:=perf_data_layout) test_decoder test_sort 10
    mapped_reader (file_with_data_size (2 ^ 64 - 1000)) = Ret [].
Proof.
  edestruct (DataSection_sorts_iff_time_and_sample_id_all
               (L:=perf_data_layout) test_decoder test_sort 10
               mapped_reader sample_file)
    as (Hsort & _);
    [vm_compute; reflexivity | discriminate | vm_compute; reflexivity
    | vm_compute; reflexivity | vm_compute; reflexivity |].
  edestruct (DataSection_sorts_iff_time_and_sample_id_all
               (L:=perf_data_layout) test_decoder test_sort 10
               mapped_reader (file_with_records 0 262144))
    as (_ & Hkeep & _);
    [vm_compute; reflexivity | discriminate | vm_compute; reflexivity
    | vm_compute; reflexivity | vm_compute; reflexivity |].
  edestruct (DataSection_sorts_iff_time_and_sample_id_all
               (L:=perf_data_layout) test_decoder test_sort 10
               mapped_reader (file_with_data_size (2 ^ 64 - 100)))
    as (Hwrap1 & _);
    [vm_compute; reflexivity | discriminate | vm_compute; reflexivity
    | vm_compute; reflexivity | vm_compute; reflexivity |].
  edestruct (DataSection_sorts_iff_time_and_sample_id_all
               (L:=perf_data_layout) test_decoder test_sort 10
               mapped_reader (file_with_data_size (2 ^ 64 - 1000)))
    as (Hwrap2 & _);
    [vm_compute; reflexivity | discriminate | vm_compute; reflexivity
    | vm_compute; reflexivity | vm_compute; reflexivity |].
  split; [|split].
  - eexists. split; [|split].
    + shelve.
    + apply Hsort. split; [discriminate | reflexivity].
    + rewrite Hkeep; [reflexivity|]. intros [Ht _]. apply Ht. reflexivity.
  - apply Hwrap1. split; [discriminate | reflexivity].
  - apply Hwrap2. split; [discriminate | reflexivity].
  Unshelve. reflexivity.
Defined.

(** C2, as stated, fails on a file without attributes: the call ends
    the process, nothing is reported to the caller. *)
Lemma DataSection_without_attrs_is_not_reported :
  DataSection (L:=perf_data_layout) test_decoder test_sort 0
    mapped_reader file_without_attrs = Aborted /\
  ~ returns_to_caller
      (DataSection (L:=perf_data_layout) test_decoder test_sort 0
         mapped_reader file_without_attrs).
Proof.
  assert (E : DataSection (L:=perf_data_layout) test_decoder test_sort 0
                mapped_reader file_without_attrs = Aborted)
    by (vm_compute; reflexivity).
  split; [exact E|]. rewrite E. intros [a Ha]. discriminate.
Qed.

Lemma DataSection_without_attrs_witness :
  DataSection (L:=perf_data_layout) test_decoder test_sort 7
    mapped_reader file_without_attrs = Aborted.
Proof.
  apply (DataSection_without_attrs_does_not_return
           (L:=perf_data_layout) test_decoder test_sort 7 mapped_reader
           file_without_attrs
           {| offset := 104; size := 0 |} 128
           eq_refl eq_refl ltac:(lia) eq_refl).
Defined.

(** ** FeatureSectionDescriptors *)

Lemma land_bit (b j : Z) :
  0 <= j -> (Z.land b (Z.shiftl 1 j) =? 0) = negb (Z.testbit b j).
Proof.
  intros Hj. rewrite Z.shiftl_1_l.
  destruct (Z.testbit b j) eqn:Eb; simpl.
  - apply Z.eqb_neq. intros E0.
    assert (Z.testbit (Z.land b (2 ^ j)) j = false)
      by (rewrite E0; apply Z.bits_0).
    rewrite Z.land_spec, Eb, Z.pow2_bits_true in H by lia. discriminate.
  - apply Z.eqb_eq. apply Z.bits_inj'. intros n Hn.
    rewrite Z.land_spec, Z.bits_0, Z.pow2_bits_eqb by lia.
    destruct (j =? n) eqn:E; [|apply andb_false_r].
    apply Z.eqb_eq in E. subst. rewrite Eb. reflexivity.
Qed.

Lemma to_int_small (z : Z) : 0 <= z < 2 ^ 31 -> to_int z = z.
Proof.
  intros Hz. unfold to_int. rewrite Z.mod_small; lia.
Qed.

Lemma filter_ext_elem {A} (P Q : A -> Prop) `{!forall x, Decision (P x)}
    `{!forall x, Decision (Q x)} (l : list A) :
  (forall x, x ∈ l -> (P x <-> Q x)) -> filter P l = filter Q l.
Proof.
  induction l as [|x l IH]; intros Hext; [reflexivity|].
  rewrite !filter_cons.
  rewrite IH by (intros y Hy; apply Hext; right; exact Hy).
  assert (Hx : P x <-> Q x) by (apply Hext; left).
  destruct (decide (P x)) as [HP|HP], (decide (Q x)) as [HQ|HQ];
    try reflexivity; exfalso; tauto.
Qed.

Section FeatureSectionFacts.
Context {L : Layout}.

Lemma scan_bits_filter (i b : Z) (js : list Z) :
  0 <= i -> 8 * i + 8 <= 2 ^ 31 ->
  (forall j, j ∈ js -> 0 <= j < 8) ->
  flat_map (fun j => if negb (Z.land b (Z.shiftl 1 j) =? 0)
                     then [to_int (i * 8 + j)] else []) js =
  filter (fun k => Z.testbit b (k mod 8) = true) (Z.add (8 * i) <$> js).
Proof.
  intros Hi Hmax. induction js as [|j js IH]; intros Hjs; [reflexivity|].
  assert (Hj : 0 <= j < 8) by (apply Hjs; left).
  simpl. rewrite IH by (intros j' Hj'; apply Hjs; right; exact Hj').
  rewrite land_bit, negb_involutive by lia.
  rewrite to_int_small by lia.
  assert (Hmod : (8 * i + j) mod 8 = j)
    by (symmetry; apply (Z.mod_unique _ _ i); lia).
  replace (i * 8 + j) with (8 * i + j) by lia.
  destruct (Z.testbit b j) eqn:Eb; simpl.
  - rewrite filter_cons_True by (rewrite Hmod; exact Eb). reflexivity.
  - rewrite filter_cons_False by (rewrite Hmod, Eb; discriminate).
    reflexivity.
Qed.

Lemma scan_byte_filter (i b : Z) :
  0 <= i -> 8 * i + 8 <= 2 ^ 31 ->
  scan_byte i b =
  filter (fun k => Z.testbit b (k mod 8) = true) (seqZ (8 * i) 8).
Proof.
  intros Hi Hmax. unfold scan_byte.
  rewrite scan_bits_filter; [|lia|lia|].
  - f_equal. replace (seqZ (8 * i) 8) with (seqZ (8 * i + 0) 8)
      by (f_equal; lia).
    rewrite <- fmap_add_seqZ. reflexivity.
  - intros j Hj. change [0; 1; 2; 3; 4; 5; 6; 7] with (seqZ 0 8) in Hj.
    apply elem_of_seqZ in Hj. lia.
Qed.

Lemma scan_features_filter (m : mapping) (hdr : Z) (bs : list Z) :
  forall i,
    0 <= i -> 8 * (i + Z.of_nat (length bs)) <= 2 ^ 31 ->
    (forall (n : nat) (b : Z), bs !! n = Some b ->
       header_features m hdr (i + Z.of_nat n) = Ret b) ->
    scan_features m hdr i (length bs) =
      Ret (filter (fun k => bit_set_from i bs k = true)
                  (seqZ (8 * i) (8 * Z.of_nat (length bs)))).
Proof.
  induction bs as [|b bs IH]; intros i Hi Hmax Hread.
  - reflexivity.
  - simpl length in *. simpl scan_features.
    replace (header_features m hdr i) with (Ret (A:=Z) b)
      by (symmetry; rewrite <- (Hread 0%nat b eq_refl); f_equal; lia).
    simpl. rewrite IH; [|lia|lia|].
    2:{ intros n b' Hn. rewrite <- (Hread (S n) b' Hn). f_equal. lia. }
    simpl. f_equal.
    replace (8 * Z.of_nat (S (length bs)))
      with (8 + 8 * Z.of_nat (length bs)) by lia.
    rewrite seqZ_app, filter_app by lia. f_equal.
    + rewrite scan_byte_filter by lia.
      apply filter_ext_elem. intros k Hk. apply elem_of_seqZ in Hk.
      unfold bit_set_from.
      assert (Hq : k / 8 = i)
        by (symmetry; apply (Z.div_unique k 8 i (k - 8 * i)); lia).
      rewrite Hq, Z.sub_diag.
      simpl. replace (8 * i <=? k) with true
        by (symmetry; apply Z.leb_le; lia).
      reflexivity.
    + replace (8 * (i + 1)) with (8 * i + 8) by lia.
      apply filter_ext_elem. intros k Hk. apply elem_of_seqZ in Hk.
      unfold bit_set_from.
      replace (8 * (i + 1) <=? k) with true
        by (symmetry; apply Z.leb_le; lia).
      replace (8 * i <=? k) with true by (symmetry; apply Z.leb_le; lia).
      assert (i + 1 <= k / 8) by (apply Z.div_le_lower_bound; lia).
      replace (Z.to_nat (k / 8 - i)) with (S (Z.to_nat (k / 8 - (i + 1))))
        by lia.
      reflexivity.
Qed.

Lemma scan_features_feature_ids (m : mapping) (hdr : Z) (bitmap : list Z) :
  8 * Z.of_nat (length bitmap) <= 2 ^ 31 ->
  (forall (n : nat) (b : Z), bitmap !! n = Some b ->
     header_features m hdr (Z.of_nat n) = Ret b) ->
  scan_features m hdr 0 (length bitmap) = Ret (feature_ids bitmap).
Proof.
  intros Hmax Hread.
  rewrite (scan_features_filter m hdr bitmap 0); [|lia|lia|exact Hread].
  f_equal. unfold feature_ids. apply filter_ext_elem.
  intros k Hk. apply elem_of_seqZ in Hk. unfold bit_set_from, bit_set.
  replace (8 * 0 <=? k) with true by (symmetry; apply Z.leb_le; lia).
  rewrite Z.sub_0_r. reflexivity.
Qed.

Lemma insert_sections_lookup (m : mapping) (features : list Z) :
  forall (p : Z) (mp0 : gmap Z SectionDesc) (table : list SectionDesc),
    length table = length features ->
    (forall (n : nat) (d : SectionDesc), table !! n = Some d ->
       read_SectionDesc m (p + 16 * Z.of_nat n) = Ret d) ->
    NoDup features ->
    (forall k, k ∈ features -> mp0 !! k = None) ->
    exists mp,
      insert_sections m p features mp0 = Ret mp /\
      forall (k : Z) (d : SectionDesc),
        mp !! k = Some d <->
        mp0 !! k = Some d \/
        exists n : nat, features !! n = Some k /\ table !! n = Some d.
Proof.
  induction features as [|f rest IH]; intros p mp0 table Hlen Hread Hnd Hfresh.
  - exists mp0. split; [reflexivity|]. intros k d. split; [auto|].
    intros [?|(n & Hn & _)]; [assumption|].
    rewrite lookup_nil in Hn. discriminate.
  - destruct table as [|d0 trest]; [discriminate|].
    apply NoDup_cons in Hnd as [Hf Hnd].
    simpl. replace (read_SectionDesc m p) with (Ret d0)
      by (symmetry; rewrite <- (Hread 0%nat d0 eq_refl); f_equal; lia).
    simpl. unfold map_insert. rewrite (Hfresh f) by left.
    destruct (IH (p + 16) (<[f:=d0]> mp0) trest) as (mp & Hmp & Hlook).
    + simpl in Hlen. lia.
    + intros n d Hn. rewrite <- (Hread (S n) d Hn). f_equal. lia.
    + exact Hnd.
    + intros k Hk. rewrite lookup_insert_ne by (intros ->; contradiction).
      apply Hfresh. right. exact Hk.
    + exists mp. split; [exact Hmp|]. intros k d. rewrite Hlook.
      destruct (decide (k = f)) as [->|Hkf].
      * rewrite lookup_insert_eq, (Hfresh f) by left. split.
        -- intros [[= <-]|(n & Hn & _)].
           ++ right. exists 0%nat. auto.
           ++ exfalso. apply Hf. apply list_elem_of_lookup. eauto.
        -- intros [?|(n & Hn & Hd)]; [discriminate|].
           destruct n as [|n]; simpl in Hn, Hd.
           ++ left. congruence.
           ++ exfalso. apply Hf. apply list_elem_of_lookup. eauto.
      * rewrite lookup_insert_ne by congruence. split.
        -- intros [?|(n & Hn & Hd)]; [auto|]. right. exists (S n). auto.
        -- intros [?|(n & Hn & Hd)]; [auto|].
           destruct n as [|n]; simpl in Hn, Hd; [congruence|]. eauto.
Qed.

(** C4.  On a reader whose table is not built yet, with the feature
    bitmap [bitmap] in the header and the descriptors [table] stored
    from byte offset [data.offset + data.size] on, one per set bit,
    [FeatureSectionDescriptors] returns (and stores in the reader) a map
    whose keys are exactly the ids [byte * 8 + bit] of the set bits, the
    [n]-th id in increasing order being mapped to the [n]-th descriptor;
    a second call returns the same map. *)
Theorem FeatureSectionDescriptors_positional (m : mapping)
    (r : RecordFileReader) (bitmap : list Z) (data : SectionDesc)
    (table : list SectionDesc) :
  feature_sections_ r = ∅ ->
  length bitmap = sizeof_FileHeader_features ->
  8 * Z.of_nat sizeof_FileHeader_features <= 2 ^ 31 ->
  (forall (i : nat) (b : Z), bitmap !! i = Some b ->
     header_features m FileHeader (Z.of_nat i) = Ret b) ->
  header_data m FileHeader = Ret data ->
  length table = length (feature_ids bitmap) ->
  (forall (n : nat) (d : SectionDesc), table !! n = Some d ->
     read_SectionDesc m
       (wrap64 (offset data + size data) + 16 * Z.of_nat n) = Ret d) ->
  exists mp,
    FeatureSectionDescriptors m r = Ret (mp, set_feature_sections r mp) /\
    (forall (k : Z) (d : SectionDesc),
       mp !! k = Some d <->
       exists n : nat, feature_ids bitmap !! n = Some k /\
                       table !! n = Some d) /\
    (forall k : Z, is_Some (mp !! k) <-> k ∈ feature_ids bitmap) /\
    (forall k : Z, k ∈ feature_ids bitmap <->
       0 <= k < 8 * Z.of_nat (length bitmap) /\ bit_set bitmap k = true) /\
    FeatureSectionDescriptors m (set_feature_sections r mp)
      = Ret (mp, set_feature_sections r mp).
Proof.
  intros Hempty Hlen Hmax Hbits Hdata Htab Hread.
  assert (Hscan : scan_features m FileHeader 0 sizeof_FileHeader_features
                  = Ret (feature_ids bitmap)).
  { rewrite <- Hlen. apply scan_features_feature_ids; [lia|exact Hbits]. }
  destruct (insert_sections_lookup m (feature_ids bitmap)
              (wrap64 (offset data + size data)) ∅ table Htab Hread)
    as (mp & Hmp & Hlook).
  { apply NoDup_filter, NoDup_seqZ. }
  { intros k _. apply lookup_empty. }
  assert (Hrun : forall r0, feature_sections_ r0 = ∅ ->
            FeatureSectionDescriptors m r0
              = Ret (mp, set_feature_sections r0 mp)).
  { intros r0 Hr0. unfold FeatureSectionDescriptors.
    rewrite decide_True by exact Hr0.
    rewrite Hscan. simpl. rewrite Hdata. simpl. rewrite Hr0, Hmp.
    reflexivity. }
  assert (Hlook' : forall k d, mp !! k = Some d <->
            exists n : nat, feature_ids bitmap !! n = Some k /\
                            table !! n = Some d).
  { intros k d. rewrite Hlook, lookup_empty. split.
    - intros [?|?]; [discriminate|assumption].
    - auto. }
  exists mp. split; [apply Hrun, Hempty|]. split; [exact Hlook'|].
  split; [|split].
  - intros k. split.
    + intros [d Hd]. apply Hlook' in Hd as (n & Hn & _).
      apply list_elem_of_lookup. eauto.
    + intros Hk. apply list_elem_of_lookup in Hk as [n Hn].
      destruct (lookup_lt_is_Some_2 table n) as [d Hd].
      { rewrite Htab. eapply lookup_lt_Some, Hn. }
      exists d. apply Hlook'. eauto.
  - intros k. unfold feature_ids.
    rewrite list_elem_of_filter, elem_of_seqZ. split; intros; lia || tauto.
  - destruct (decide (mp = ∅)) as [Hmpe|Hne].
    + rewrite (Hrun (set_feature_sections r mp)) by exact Hmpe.
      reflexivity.
    + unfold FeatureSectionDescriptors.
      rewrite decide_False by exact Hne. reflexivity.
Qed.
End FeatureSectionFacts.

Example sample_bitmap_ids : feature_ids sample_bitmap = [2; 5].
Proof. vm_compute. reflexivity. Qed.

Lemma FeatureSectionDescriptors_positional_witness :
  exists mp,
    FeatureSectionDescriptors (L:=perf_data_layout) sample_file test_reader
      = Ret (mp, set_feature_sections test_reader mp) /\
    mp !! 2 = Some {| offset := 100; size := 20 |} /\
    mp !! 5 = Some {| offset := 200; size := 8 |} /\
    forall k : Z, is_Some (mp !! k) <-> k = 2 \/ k = 5.
Proof.
  destruct (FeatureSectionDescriptors_positional (L:=perf_data_layout)
              sample_file test_reader sample_bitmap
              {| offset := 232; size := 56 |} sample_table)
    as (mp & Hrun & Hlook & Hkeys & _).
  - reflexivity.
  - reflexivity.
  - simpl. lia.
  - intros i b Hi.
    do 32 (destruct i as [|i]; [injection Hi as <-; reflexivity|]).
    discriminate.
  - reflexivity.
  - reflexivity.
  - intros n d Hn.
    do 2 (destruct n as [|n]; [injection Hn as <-; reflexivity|]).
    discriminate.
  - exists mp. split; [exact Hrun|]. split; [|split].
    + apply Hlook. exists 0%nat. split; reflexivity.
    + apply Hlook. exists 1%nat. split; reflexivity.
    + intros k. rewrite Hkeys, sample_bitmap_ids.
      rewrite !elem_of_cons, elem_of_nil. tauto.
Defined.

(** ** ReadCmdlineFeature *)








Section CmdlineFacts.
Context {L : Layout}.




End CmdlineFacts.

(** *** ReadCmdlineFeature on the test files *)







(** * Further properties *)

(** ** Life cycle *)

Lemma open_fds_app (t1 t2 : trace) : forall fds : gset Z,
  open_fds (t1 ++ t2) fds = open_fds t2 (open_fds t1 fds).
Proof.
  induction t1 as [|[c r] t1 IH]; intros fds; simpl; [reflexivity|].
  destruct c; apply IH.
Qed.

Lemma Close_value (kernel : trace -> syscall -> Z) (r : RecordFileReader)
    (t : trace) :
  Close kernel r t =
    ((negb (kernel t (sys_munmap (mmap_addr_ r) (mmap_len_ r)) =? -1)
      && negb (kernel
                 (t ++ [(sys_munmap (mmap_addr_ r) (mmap_len_ r),
                         kernel t (sys_munmap (mmap_addr_ r) (mmap_len_ r)))])
                 (sys_close (record_fd_ r)) =? -1),
      {| filename_ := filename_ r; record_fd_ := -1;
         mmap_addr_ := mmap_addr_ r; mmap_len_ := mmap_len_ r;
         feature_sections_ := feature_sections_ r |}),
     (t ++ [(sys_munmap (mmap_addr_ r) (mmap_len_ r),
             kernel t (sys_munmap (mmap_addr_ r) (mmap_len_ r)))])
       ++ [(sys_close (record_fd_ r),
            kernel
              (t ++ [(sys_munmap (mmap_addr_ r) (mmap_len_ r),
                      kernel t (sys_munmap (mmap_addr_ r) (mmap_len_ r)))])
              (sys_close (record_fd_ r)))]).
Proof.
  unfold Close, sys_bind, call, sys_ret.
  destruct (kernel t (sys_munmap (mmap_addr_ r) (mmap_len_ r)) =? -1);
    destruct (kernel _ (sys_close (record_fd_ r)) =? -1); reflexivity.
Qed.

Lemma MmapFile_success (kernel : trace -> syscall -> Z)
    (r : RecordFileReader) (t : trace) (file_size addr : Z) :
  kernel t (sys_lseek_end (record_fd_ r)) = file_size ->
  file_size <> -1 ->
  kernel (t ++ [(sys_lseek_end (record_fd_ r), file_size)])
    (sys_mmap (wrap64 file_size) (record_fd_ r)) = addr ->
  addr <> MAP_FAILED ->
  MmapFile kernel r t =
    ((true,
      {| filename_ := filename_ r; record_fd_ := record_fd_ r;
         mmap_addr_ := addr; mmap_len_ := wrap64 file_size;
         feature_sections_ := feature_sections_ r |}),
     (t ++ [(sys_lseek_end (record_fd_ r), file_size)])
       ++ [(sys_mmap (wrap64 file_size) (record_fd_ r), addr)]).
Proof.
  intros Hsize Hne Haddr Hok.
  unfold MmapFile, sys_bind, call, sys_ret. rewrite Hsize.
  apply Z.eqb_neq in Hne. rewrite Hne, Haddr.
  apply Z.eqb_neq in Hok. rewrite Hok. reflexivity.
Qed.

(** X1.  When [open] fails, [CreateInstance] returns [nullptr] having
    made that one system call: nothing is sized, mapped, unmapped or
    closed, and the set of open descriptors is what it was. *)
Theorem CreateInstance_open_failure (kernel : trace -> syscall -> Z)
    (filename : string) (t : trace) :
  kernel t (sys_open filename) = -1 ->
  CreateInstance kernel filename t = (None, t ++ [(sys_open filename, -1)]) /\
  forall fds : gset Z,
    open_fds (snd (CreateInstance kernel filename t)) fds = open_fds t fds.
Proof.
  intros Hopen.
  assert (E : CreateInstance kernel filename t
              = (None, t ++ [(sys_open filename, -1)])).
  { rewrite CreateInstance_unfold. cbv zeta. rewrite Hopen. reflexivity. }
  split; [exact E|]. intros fds. rewrite E. simpl snd.
  rewrite open_fds_app. reflexivity.
Qed.

Lemma CreateInstance_open_failure_witness :
  CreateInstance failing_open_kernel "perf.data" []
    = (None, [(sys_open "perf.data", -1)]).
Proof.
  exact (proj1 (CreateInstance_open_failure failing_open_kernel
                  "perf.data" [] eq_refl)).
Defined.

(** X2.  When [open], [lseek] and [mmap] all succeed, [CreateInstance]
    returns a reader that holds the descriptor [open] gave, the address
    [mmap] gave, the file size as mapping length and an empty feature
    table; it made exactly these three calls, and the descriptor is left
    open for the reader. *)
Theorem CreateInstance_success (kernel : trace -> syscall -> Z)
    (filename : string) (t : trace) (fd file_size addr : Z) :
  kernel t (sys_open filename) = fd ->
  fd <> -1 ->
  kernel (t ++ [(sys_open filename, fd)]) (sys_lseek_end fd) = file_size ->
  file_size <> -1 ->
  kernel ((t ++ [(sys_open filename, fd)]) ++ [(sys_lseek_end fd, file_size)])
    (sys_mmap (wrap64 file_size) fd) = addr ->
  addr <> MAP_FAILED ->
  CreateInstance kernel filename t =
    (Some {| filename_ := filename; record_fd_ := fd;
             mmap_addr_ := addr; mmap_len_ := wrap64 file_size;
             feature_sections_ := ∅ |},
     ((t ++ [(sys_open filename, fd)]) ++ [(sys_lseek_end fd, file_size)])
       ++ [(sys_mmap (wrap64 file_size) fd, addr)]) /\
  forall fds : gset Z,
    fd ∈ open_fds (snd (CreateInstance kernel filename t)) fds.
Proof.
  intros Hopen Hfd Hsize Hne Haddr Hok.
  assert (E : CreateInstance kernel filename t =
    (Some {| filename_ := filename; record_fd_ := fd;
             mmap_addr_ := addr; mmap_len_ := wrap64 file_size;
             feature_sections_ := ∅ |},
     ((t ++ [(sys_open filename, fd)]) ++ [(sys_lseek_end fd, file_size)])
       ++ [(sys_mmap (wrap64 file_size) fd, addr)])).
  { rewrite CreateInstance_unfold. cbv zeta. rewrite Hopen.
    pose proof Hfd as Hfd'. apply Z.eqb_neq in Hfd'. rewrite Hfd'.
    rewrite (MmapFile_success kernel (new_RecordFileReader filename fd)
               (t ++ [(sys_open filename, fd)]) file_size addr
               Hsize Hne Haddr Hok).
    reflexivity. }
  split; [exact E|]. intros fds. rewrite E. simpl snd.
  rewrite !open_fds_app. simpl.
  apply Z.eqb_neq in Hfd. rewrite Hfd. apply elem_of_union. left.
  apply elem_of_singleton. reflexivity.
Qed.

Lemma CreateInstance_success_witness :
  fst (CreateInstance working_kernel "perf.data" []) =
    Some {| filename_ := "perf.data"; record_fd_ := 3;
            mmap_addr_ := 65536; mmap_len_ := 4096;
            feature_sections_ := ∅ |}.
Proof.
  rewrite (proj1 (CreateInstance_success working_kernel "perf.data" []
                    3 4096 65536 eq_refl ltac:(lia) eq_refl ltac:(lia)
                    eq_refl ltac:(unfold MAP_FAILED; lia))).
  reflexivity.
Defined.

Lemma CreateInstance_cases (kernel : trace -> syscall -> Z)
    (filename : string) (t : trace) :
  let fd := kernel t (sys_open filename) in
  let t1 := t ++ [(sys_open filename, fd)] in
  let fs := kernel t1 (sys_lseek_end fd) in
  let t2 := t1 ++ [(sys_lseek_end fd, fs)] in
  let ad := kernel t2 (sys_mmap (wrap64 fs) fd) in
  let t3 := t2 ++ [(sys_mmap (wrap64 fs) fd, ad)] in
  (fd = -1 /\ CreateInstance kernel filename t = (None, t1)) \/
  (fd <> -1 /\ fs = -1 /\
   exists rc1 rc2,
     CreateInstance kernel filename t =
       (None, (t2 ++ [(sys_munmap nullptr 0, rc1)]) ++ [(sys_close fd, rc2)]))
  \/
  (fd <> -1 /\ fs <> -1 /\ ad = MAP_FAILED /\
   exists rc1 rc2,
     CreateInstance kernel filename t =
       (None, (t3 ++ [(sys_munmap nullptr 0, rc1)]) ++ [(sys_close fd, rc2)]))
  \/
  (fd <> -1 /\ fs <> -1 /\ ad <> MAP_FAILED /\
   CreateInstance kernel filename t =
     (Some {| filename_ := filename; record_fd_ := fd;
              mmap_addr_ := ad; mmap_len_ := wrap64 fs;
              feature_sections_ := ∅ |}, t3)).
Proof.
  intros fd t1 fs t2 ad t3.
  rewrite CreateInstance_unfold. cbv zeta. fold fd. fold t1.
  destruct (fd =? -1) eqn:Efd.
  { left. apply Z.eqb_eq in Efd. auto. }
  apply Z.eqb_neq in Efd. right.
  unfold MmapFile, sys_bind, call, sys_ret.
  change (record_fd_ (new_RecordFileReader filename fd)) with fd.
  fold fs. fold t2.
  destruct (fs =? -1) eqn:Efs.
  { left. apply Z.eqb_eq in Efs. split; [exact Efd|]. split; [exact Efs|].
    cbn [fst snd negb]. unfold destroy.
    change (record_fd_ (new_RecordFileReader filename fd)) with fd.
    apply Z.eqb_neq in Efd. rewrite Efd. cbn [negb]. unfold sys_bind.
    rewrite Close_value. cbn [snd]. eauto. }
  apply Z.eqb_neq in Efs. right. fold ad. fold t3.
  destruct (ad =? MAP_FAILED) eqn:Ead.
  { left. apply Z.eqb_eq in Ead. do 3 (split; [assumption|]).
    cbn [fst snd negb]. unfold destroy.
    change (record_fd_ (new_RecordFileReader filename fd)) with fd.
    apply Z.eqb_neq in Efd. rewrite Efd. cbn [negb]. unfold sys_bind.
    rewrite Close_value. cbn [snd]. eauto. }
  apply Z.eqb_neq in Ead. right. do 3 (split; [assumption|]). reflexivity.
Qed.

Lemma opened_then_closed (fd : Z) (fds : gset Z) :
  ({[fd]} ∪ fds) ∖ {[fd]} ⊆ fds.
Proof.
  intros x Hx. apply elem_of_difference in Hx as [Hx Hn].
  apply elem_of_union in Hx as [Hx|Hx]; [contradiction|exact Hx].
Qed.

(** X3.  Whatever the kernel answers, [CreateInstance] either returns a
    reader that owns the descriptor [open] gave (not -1), a mapping
    address other than [MAP_FAILED] and an empty feature table, or
    returns [nullptr] and leaves no descriptor open that was not open
    before the call. *)
Theorem CreateInstance_owns_or_releases (kernel : trace -> syscall -> Z)
    (filename : string) (t : trace) (fds : gset Z) :
  match fst (CreateInstance kernel filename t) with
  | Some r =>
      record_fd_ r = kernel t (sys_open filename) /\
      record_fd_ r <> -1 /\
      mmap_addr_ r <> MAP_FAILED /\
      feature_sections_ r = ∅ /\
      record_fd_ r ∈ open_fds (snd (CreateInstance kernel filename t)) fds
  | None =>
      open_fds (snd (CreateInstance kernel filename t)) fds ⊆ open_fds t fds
  end.
Proof.
  destruct (CreateInstance_cases kernel filename t)
    as [(Hfd & E) | [(Hfd & _ & rc1 & rc2 & E)
       | [(Hfd & _ & _ & rc1 & rc2 & E) | (Hfd & _ & Had & E)]]];
    rewrite E; cbn [fst snd]; rewrite !open_fds_app; simpl.
  - rewrite Hfd. simpl. reflexivity.
  - apply Z.eqb_neq in Hfd. rewrite Hfd. apply opened_then_closed.
  - apply Z.eqb_neq in Hfd. rewrite Hfd. apply opened_then_closed.
  - split; [reflexivity|]. split; [exact Hfd|]. split; [exact Had|].
    split; [reflexivity|].
    apply Z.eqb_neq in Hfd. rewrite Hfd. apply elem_of_union. left.
    apply elem_of_singleton. reflexivity.
Qed.

(** X4.  [Close()] always makes both calls, [munmap] of the stored
    mapping and then [close] of the stored descriptor, also when
    [munmap] fails; it returns false exactly when one of the two
    returned -1; the descriptor is not open afterwards. *)
Theorem Close_attempts_both_and_reports (kernel : trace -> syscall -> Z)
    (r : RecordFileReader) (t : trace) :
  exists rc1 rc2,
    kernel t (sys_munmap (mmap_addr_ r) (mmap_len_ r)) = rc1 /\
    kernel (t ++ [(sys_munmap (mmap_addr_ r) (mmap_len_ r), rc1)])
      (sys_close (record_fd_ r)) = rc2 /\
    snd (Close kernel r t) =
      t ++ [(sys_munmap (mmap_addr_ r) (mmap_len_ r), rc1);
            (sys_close (record_fd_ r), rc2)] /\
    (fst (fst (Close kernel r t)) = false <-> rc1 = -1 \/ rc2 = -1) /\
    forall fds : gset Z, record_fd_ r ∉ open_fds (snd (Close kernel r t)) fds.
Proof.
  do 2 eexists. split; [reflexivity|]. split; [reflexivity|].
  rewrite Close_value. cbn [fst snd]. split; [|split].
  - rewrite <- app_assoc. reflexivity.
  - rewrite andb_false_iff, !negb_false_iff, !Z.eqb_eq. reflexivity.
  - intros fds. rewrite open_fds_snoc_close.
    apply not_elem_of_difference. right. apply elem_of_singleton.
    reflexivity.
Qed.

(** X16.  [Close()] does not look at [record_fd_]: called a second
    time it unmaps the same address and length again and calls
    [close(-1)]. *)
Theorem Close_twice_repeats_munmap (kernel : trace -> syscall -> Z)
    (r : RecordFileReader) (t : trace) :
  exists rc1 rc2 rc3 rc4,
    snd (Close kernel (snd (fst (Close kernel r t))) (snd (Close kernel r t)))
    = t ++ [(sys_munmap (mmap_addr_ r) (mmap_len_ r), rc1);
            (sys_close (record_fd_ r), rc2);
            (sys_munmap (mmap_addr_ r) (mmap_len_ r), rc3);
            (sys_close (-1), rc4)].
Proof.
  rewrite (Close_value kernel r t). cbn [fst snd].
  rewrite Close_value. cbn [snd mmap_addr_ mmap_len_ record_fd_].
  do 4 eexists. rewrite <- !app_assoc. reflexivity.
Qed.

(** X5.  A reader returned by [CreateInstance] and then destroyed:
    the destructor unmaps the address and length that [mmap] was called
    with and returned, closes the descriptor the reader holds, and makes
    no other call; the descriptor is not open afterwards. *)
Theorem destroy_after_CreateInstance (kernel : trace -> syscall -> Z)
    (filename : string) (t t' : trace) (r : RecordFileReader) :
  CreateInstance kernel filename t = (Some r, t') ->
  last t' = Some (sys_mmap (mmap_len_ r) (record_fd_ r), mmap_addr_ r) /\
  exists rc1 rc2,
    destroy kernel r t' =
      (tt, t' ++ [(sys_munmap (mmap_addr_ r) (mmap_len_ r), rc1);
                  (sys_close (record_fd_ r), rc2)]) /\
    forall fds : gset Z,
      record_fd_ r ∉ open_fds (snd (destroy kernel r t')) fds.
Proof.
  intros Hcreate.
  destruct (CreateInstance_cases kernel filename t)
    as [(_ & E) | [(_ & _ & ? & ? & E)
       | [(_ & _ & _ & ? & ? & E) | (Hfd & _ & _ & E)]]];
    rewrite E in Hcreate; try discriminate.
  injection Hcreate as <- <-. cbn [mmap_len_ record_fd_ mmap_addr_].
  split; [apply last_snoc|].
  unfold destroy. cbn [record_fd_].
  pose proof Hfd as Hfd'. apply Z.eqb_neq in Hfd'. rewrite Hfd'.
  cbn [negb]. unfold sys_bind. rewrite Close_value.
  cbn [record_fd_ mmap_addr_ mmap_len_ snd].
  do 2 eexists. split.
  - unfold sys_ret. rewrite <- app_assoc. reflexivity.
  - intros fds. unfold sys_ret. cbn [snd].
    rewrite open_fds_snoc_close.
    apply not_elem_of_difference. right. apply elem_of_singleton.
    reflexivity.
Qed.

Lemma destroy_after_CreateInstance_witness :
  exists rc1 rc2,
    destroy working_kernel
      {| filename_ := "perf.data"; record_fd_ := 3;
         mmap_addr_ := 65536; mmap_len_ := 4096;
         feature_sections_ := ∅ |}
      [(sys_open "perf.data", 3); (sys_lseek_end 3, 4096);
       (sys_mmap 4096 3, 65536)]
    = (tt, [(sys_open "perf.data", 3); (sys_lseek_end 3, 4096);
            (sys_mmap 4096 3, 65536); (sys_munmap 65536 4096, rc1);
            (sys_close 3, rc2)]).
Proof.
  destruct (destroy_after_CreateInstance working_kernel "perf.data" []
              [(sys_open "perf.data", 3); (sys_lseek_end 3, 4096);
               (sys_mmap 4096 3, 65536)]
              {| filename_ := "perf.data"; record_fd_ := 3;
                 mmap_addr_ := 65536; mmap_len_ := 4096;
                 feature_sections_ := ∅ |} eq_refl)
    as (_ & rc1 & rc2 & E & _).
  exists rc1, rc2. exact E.
Defined.

(** ** AttrSection and IdsForAttr *)

Lemma load_bytes_Some_range (m : mapping) (n : nat) :
  forall (p : Z) (bs : list byte),
    load_bytes m p (S n) = Some bs ->
    0 <= p /\ p + Z.of_nat (S n) <= Z.of_nat (length m).
Proof.
  induction n as [|n IH]; intros p bs Hl; simpl in Hl.
  - unfold load in Hl. destruct (p <? 0) eqn:E; [discriminate|].
    apply Z.ltb_ge in E.
    destruct (m !! Z.to_nat p) eqn:El; [|discriminate].
    apply lookup_lt_Some in El. lia.
  - destruct (load m p) eqn:Eb; [|discriminate].
    destruct (load m (p + 1)) eqn:Eb1; [|discriminate].
    destruct (load_bytes m (p + 1 + 1) n) eqn:En; [|discriminate].
    destruct (IH (p + 1) (b0 :: l)) as [H0 H1].
    { simpl. rewrite Eb1, En. reflexivity. }
    unfold load in Eb. destruct (p <? 0) eqn:E; [discriminate|].
    apply Z.ltb_ge in E. lia.
Qed.

Lemma read_uint_Ret_range (n : nat) (m : mapping) (p v : Z) :
  read_uint (S n) m p = Ret v ->
  0 <= p /\ p + Z.of_nat (S n) <= Z.of_nat (length m).
Proof.
  unfold read_uint. destruct (load_bytes m p (S n)) eqn:E; [|discriminate].
  intros _. eapply load_bytes_Some_range, E.
Qed.

Lemma read_uint_outcome (n : nat) (m : mapping) (p : Z) :
  (exists v, read_uint n m p = Ret v) \/ read_uint n m p = Undefined.
Proof.
  unfold read_uint. destruct (load_bytes m p n); eauto.
Qed.

Section AttrFacts.
Context {L : Layout}.

(** X6.  With the header readable and [attr_size] not zero,
    [AttrSection] returns [attrs.size / attr_size] pointers, the [i]-th
    being [attrs.offset + i * sizeof(FileAttr)]: the count comes from
    [attr_size], the stride from the size of the structure.  The
    attribute table itself is not read. *)
Theorem AttrSection_count_and_stride (m : mapping) (attrs : SectionDesc)
    (attr_size : Z) :
  header_attrs m FileHeader = Ret attrs ->
  header_attr_size m FileHeader = Ret attr_size ->
  attr_size <> 0 ->
  exists file_attrs,
    AttrSection m = Ret file_attrs /\
    Z.of_nat (length file_attrs) = size attrs / attr_size /\
    forall (i : nat) (a : Z), file_attrs !! i = Some a ->
      a = offset attrs + Z.of_nat i * sizeof_FileAttr.
Proof.
  intros Hattrs Hsize Hnz. unfold AttrSection. rewrite Hattrs. simpl.
  rewrite Hsize. simpl. pose proof Hnz as Hnz'.
  apply Z.eqb_neq in Hnz'. rewrite Hnz'.
  eexists. split; [reflexivity|].
  apply read_SectionDesc_inv in Hattrs as [_ Hs].
  apply read_uint_nonneg in Hs, Hsize.
  assert (0 <= size attrs / attr_size) by (apply Z.div_pos; lia).
  split.
  - rewrite length_map, length_seq. lia.
  - intros i a Hi. rewrite list_lookup_fmap in Hi.
    destruct (seq 0 (Z.to_nat (size attrs / attr_size)) !! i) as [j|] eqn:Ej;
      [|discriminate].
    apply lookup_seq in Ej as [-> _]. simpl in Hi. injection Hi as <-.
    reflexivity.
Qed.

Lemma read_ids_Ret_range (m : mapping) (n : nat) :
  forall (id : Z) (l : list Z),
    read_ids m id (S n) = Ret l ->
    0 <= id /\ id + 8 * Z.of_nat (S n) <= Z.of_nat (length m).
Proof.
  induction n as [|n IH]; intros id l Hl.
  - simpl in Hl. apply bind_Ret_inv in Hl as (v & Hv & _).
    apply read_uint_Ret_range in Hv. lia.
  - change (read_ids m id (S (S n)))
      with (v ← read_u64 m id;
            rest ← read_ids m (id + 8) (S n); Ret (v :: rest)) in Hl.
    apply bind_Ret_inv in Hl as (v & Hv & Hl).
    apply bind_Ret_inv in Hl as (rest & Hrest & _).
    apply read_uint_Ret_range in Hv. apply IH in Hrest. lia.
Qed.

Lemma read_ids_outcome (m : mapping) (n : nat) : forall id,
  (exists l, read_ids m id n = Ret l) \/ read_ids m id n = Undefined.
Proof.
  induction n as [|n IH]; intros id; simpl; [eauto|].
  destruct (read_uint_outcome 8 m id) as [[v Hv]|Hv];
    fold read_u64 in Hv; rewrite Hv; simpl; [|auto].
  destruct (IH (id + 8)) as [[l Hl]|Hl]; rewrite Hl; simpl; eauto.
Qed.

(** X7.  For an attribute whose [ids] descriptor [d] is readable,
    [IdsForAttr] returns exactly when there is no whole identifier
    ([d.size < 8]) or the [d.size / 8] identifiers lie inside the
    mapping; otherwise it reads outside the mapping.  With
    [d.size < 8] the result is empty and [d.offset] is not used. *)
Theorem IdsForAttr_returns_iff_in_mapping (m : mapping) (attr : Z)
    (d : SectionDesc) :
  read_SectionDesc m (attr + offsetof_FileAttr_ids) = Ret d ->
  (returns_to_caller (IdsForAttr m attr) <->
   size d < 8 \/ offset d + 8 * (size d / 8) <= Z.of_nat (length m)) /\
  (~ returns_to_caller (IdsForAttr m attr) ->
   IdsForAttr m attr = Undefined) /\
  (size d < 8 -> IdsForAttr m attr = Ret []).
Proof.
  intros Hd.
  assert (E : IdsForAttr m attr
              = read_ids m (offset d) (Z.to_nat (size d / 8))).
  { unfold IdsForAttr. rewrite Hd. reflexivity. }
  apply read_SectionDesc_inv in Hd as [Ho Hs].
  apply read_uint_nonneg in Ho, Hs.
  assert (Hsmall : size d < 8 -> size d / 8 = 0)
    by (intros; apply Z.div_small; lia).
  rewrite E. split; [|split].
  - split.
    + intros [l Hl].
      destruct (Z.to_nat (size d / 8)) as [|n] eqn:En.
      * left. pose proof (Z.div_pos (size d) 8 Hs ltac:(lia)) as Hq.
        assert (Hz : size d / 8 = 0) by lia.
        apply Z.div_small_iff in Hz; lia.
      * right. apply read_ids_Ret_range in Hl. lia.
    + intros [Hlt|Hin].
      * rewrite (Hsmall Hlt). simpl. eexists. reflexivity.
      * assert (0 <= size d / 8) by (apply Z.div_pos; lia).
        destruct (read_ids_in_range m (Z.to_nat (size d / 8)) (offset d))
          as (ids & Hids & _); [lia|lia|].
        exists ids. exact Hids.
  - intros Hno.
    destruct (read_ids_outcome m (Z.to_nat (size d / 8)) (offset d))
      as [[l Hl]|Hu]; [|exact Hu].
    exfalso. apply Hno. exists l. exact Hl.
  - intros Hlt. rewrite (Hsmall Hlt). reflexivity.
Qed.
End AttrFacts.

Lemma AttrSection_count_and_stride_witness :
  AttrSection (L:=perf_data_layout) file_with_small_attr_size
    = Ret [104; 232; 360; 488] /\
  AttrSection (L:=perf_data_layout) file_with_large_attr_size
    = Ret [104; 232; 360] /\
  AttrSection (L:=perf_data_layout) sample_file = Ret [104].
Proof.
  split; [|split].
  - destruct (AttrSection_count_and_stride (L:=perf_data_layout)
                file_with_small_attr_size
                {| offset := 104; size := 256 |} 64
                eq_refl eq_refl ltac:(lia))
      as (file_attrs & E & Hlen & Hval).
    rewrite E. f_equal.
    change (size {| offset := 104; size := 256 |} / 64) with 4 in Hlen.
    destruct file_attrs as [|a0 [|a1 [|a2 [|a3 [|a4 rest]]]]];
      simpl in Hlen; try lia.
    rewrite (Hval 0%nat a0 eq_refl), (Hval 1%nat a1 eq_refl),
      (Hval 2%nat a2 eq_refl), (Hval 3%nat a3 eq_refl).
    reflexivity.
  - destruct (AttrSection_count_and_stride (L:=perf_data_layout)
                file_with_large_attr_size
                {| offset := 104; size := 768 |} 256
                eq_refl eq_refl ltac:(lia))
      as (file_attrs & E & Hlen & Hval).
    rewrite E. f_equal.
    change (size {| offset := 104; size := 768 |} / 256) with 3 in Hlen.
    destruct file_attrs as [|a0 [|a1 [|a2 [|a3 rest]]]];
      simpl in Hlen; try lia.
    rewrite (Hval 0%nat a0 eq_refl), (Hval 1%nat a1 eq_refl),
      (Hval 2%nat a2 eq_refl).
    reflexivity.
  - destruct (AttrSection_count_and_stride (L:=perf_data_layout) sample_file
                {| offset := 104; size := 128 |} 128
                eq_refl eq_refl ltac:(lia))
      as (file_attrs & E & Hlen & Hval).
    rewrite E. f_equal.
    change (size {| offset := 104; size := 128 |} / 128) with 1 in Hlen.
    destruct file_attrs as [|a [|b rest]]; simpl in Hlen; try lia.
    rewrite (Hval 0%nat a eq_refl). reflexivity.
Defined.

Lemma IdsForAttr_returns_iff_in_mapping_witness :
  returns_to_caller (IdsForAttr (L:=perf_data_layout) ids_file 104) /\
  IdsForAttr (L:=perf_data_layout) sample_file 104 = Ret [].
Proof.
  split.
  - apply (proj1 (IdsForAttr_returns_iff_in_mapping (L:=perf_data_layout)
                    ids_file 104 {| offset := 232; size := 16 |} eq_refl)).
    right. vm_compute. discriminate.
  - apply (proj2 (proj2 (IdsForAttr_returns_iff_in_mapping
                           (L:=perf_data_layout) sample_file 104
                           {| offset := 0; size := 0 |} eq_refl))).
    simpl. lia.
Defined.

(** ** IsRecordHappensBefore as an ordering *)

Section OrderingFacts.
Context {L : Layout}.

Lemma IsRecordHappensBefore_false (a b : Record_) :
  IsRecordHappensBefore a b = false <->
  record_time b < record_time a \/
  (record_time a = record_time b /\
   (is_sample a = true \/ is_sample b = false)).
Proof.
  rewrite <- not_true_iff_false, IsRecordHappensBefore_spec.
  destruct (is_sample a), (is_sample b); split; intros Hx;
    try (intros [?|(? & ? & ?)]; destruct Hx as [?|(? & [?|?])];
         (lia || discriminate));
    destruct (Z.lt_trichotomy (record_time a) (record_time b))
      as [?|[?|?]]; auto;
    exfalso; apply Hx; auto.
Qed.

Lemma IsRecordHappensBefore_asym (a b : Record_) :
  IsRecordHappensBefore a b = true -> IsRecordHappensBefore b a = false.
Proof.
  rewrite IsRecordHappensBefore_spec, IsRecordHappensBefore_false.
  intros [?|(? & ? & ?)]; [left; assumption|right; auto].
Qed.

(** X8.  [IsRecordHappensBefore] is a strict weak ordering, which is
    what [std::sort] asks of its comparator: no record is before itself,
    before is transitive, and being unordered (equal times and the same
    kind) is transitive too. *)
Theorem IsRecordHappensBefore_strict_weak_ordering :
  (forall r, IsRecordHappensBefore r r = false) /\
  (forall a b, IsRecordHappensBefore a b = true ->
     IsRecordHappensBefore b a = false) /\
  (forall a b c, IsRecordHappensBefore a b = true ->
     IsRecordHappensBefore b c = true ->
     IsRecordHappensBefore a c = true) /\
  (forall a b, incomparable a b <->
     record_time a = record_time b /\ is_sample a = is_sample b) /\
  (forall a b c, incomparable a b -> incomparable b c -> incomparable a c).
Proof.
  assert (Hinc : forall a b, incomparable a b <->
            record_time a = record_time b /\ is_sample a = is_sample b).
  { intros a b. unfold incomparable.
    rewrite !IsRecordHappensBefore_false.
    destruct (is_sample a), (is_sample b); split;
      try (intros [[?|(? & [?|?])] [?|(? & [?|?])]]; split;
           (lia || congruence));
      intros [? ?]; try discriminate; split; right; auto. }
  split; [|split; [|split; [|split]]].
  - intros r. apply IsRecordHappensBefore_false. right.
    split; [reflexivity|]. destruct (is_sample r); auto.
  - intros a b. rewrite IsRecordHappensBefore_spec,
      IsRecordHappensBefore_false.
    intros [?|(? & ? & ?)]; [left; assumption|right; auto].
  - intros a b c. rewrite !IsRecordHappensBefore_spec.
    intros [?|(? & ? & ?)] [?|(? & ? & ?)];
      try (left; lia); try congruence.
  - exact Hinc.
  - intros a b c. rewrite !Hinc. intros [? ?] [? ?]. split; congruence.
Qed.

Lemma not_before_in_time_order (a b : Record_) :
  IsRecordHappensBefore b a = false -> in_time_order a b.
Proof.
  rewrite IsRecordHappensBefore_false. unfold in_time_order.
  intros [?|(? & [?|?])]; split; try lia; intros; congruence.
Qed.

Lemma not_before_trans (a b c : Record_) :
  IsRecordHappensBefore b a = false -> IsRecordHappensBefore c b = false ->
  IsRecordHappensBefore c a = false.
Proof.
  rewrite !IsRecordHappensBefore_false.
  intros [?|(? & [?|?])] [?|(? & [?|?])];
    try (left; lia); right; (split; [lia|]); auto;
    destruct (is_sample b); try discriminate; auto.
Qed.
End OrderingFacts.

Lemma StronglySorted_weaken {A} (R R' : A -> A -> Prop) (l : list A) :
  (forall a b, R a b -> R' a b) -> StronglySorted R l -> StronglySorted R' l.
Proof.
  intros HR. induction 1 as [|a l Hl IH Hall]; constructor; [exact IH|].
  eapply Forall_impl; [exact Hall|]. intros b. apply HR.
Qed.

Lemma StronglySorted_filter {A} (R : A -> A -> Prop) (P : A -> Prop)
    `{!forall x, Decision (P x)} (l : list A) :
  StronglySorted R l -> StronglySorted R (filter P l).
Proof.
  induction 1 as [|a l Hl IH Hall]; [constructor|].
  rewrite filter_cons. destruct (decide (P a)); [|exact IH].
  constructor; [exact IH|].
  apply Forall_forall. intros x Hx. apply list_elem_of_filter in Hx as [_ Hx].
  rewrite Forall_forall in Hall. apply Hall, Hx.
Qed.

(** ** DataSection: what the caller receives *)

Lemma walk_layout_inside (m : mapping) (end_ p : Z) (lay : list (Z * Z)) :
  walk_layout m end_ p lay ->
  Forall (fun rec => p <= fst rec /\ fst rec < end_ /\ 0 <= snd rec /\
                     read_u16 m (fst rec + 6) = Ret (snd rec)) lay /\
  StronglySorted (fun a b => fst a + snd a <= fst b) lay.
Proof.
  induction 1 as [p Hp | p hsz rest Hp Hsz Hrest [IHin IHsorted]].
  - split; constructor.
  - pose proof (read_uint_nonneg _ _ _ _ Hsz) as Hpos. split.
    + constructor; [simpl; repeat split; (lia || assumption)|].
      eapply Forall_impl; [exact IHin|]. simpl.
      intros rec (? & ? & ? & ?). repeat split; (lia || assumption).
    + constructor; [exact IHsorted|].
      eapply Forall_impl; [exact IHin|]. simpl. intros rec (? & _). lia.
Qed.

Section DataSectionOutput.
Context {L : Layout}.
Variable ReadRecordFromBuffer : perf_event_attr -> mapping -> Z -> Record_.
Variable std_sort :
  (Record_ -> Record_ -> bool) -> list Record_ -> list Record_.

(** X9.  The records the walk hands to the decoder are slices of the
    data region: each starts at or after the region's start, ends at or
    before its end with the length its own header declares, and no two
    of them overlap; they are decoded in the order of the file. *)
Theorem walk_records_decodes_disjoint_slices (attr : perf_event_attr)
    (m : mapping) (end_ p : Z) (lay : list (Z * Z)) (fuel : nat)
    (acc : list Record_) :
  walk_layout m end_ p lay ->
  (length lay <= fuel)%nat ->
  exists kept,
    walk_records ReadRecordFromBuffer fuel attr m end_ p acc
      = Ret (acc ++ map (decode_at ReadRecordFromBuffer attr m) kept) /\
    Forall (fun rec => p <= fst rec /\ fst rec + snd rec <= end_ /\
                       read_u16 m (fst rec + 6) = Ret (snd rec)) kept /\
    StronglySorted (fun a b => fst a + snd a <= fst b) kept.
Proof.
  intros Hlay Hfuel.
  exists (filter (fun rec => fits end_ rec = true) lay).
  split; [apply walk_records_layout; assumption|].
  destruct (walk_layout_inside m end_ p lay Hlay) as [Hin Hsorted].
  split.
  - apply Forall_forall. intros rec Hrec.
    apply list_elem_of_filter in Hrec as [Hfit Hrec].
    rewrite Forall_forall in Hin.
    destruct (Hin rec Hrec) as (? & _ & _ & ?).
    unfold fits in Hfit. apply Z.leb_le in Hfit. auto.
  - apply StronglySorted_filter. exact Hsorted.
Qed.

(** X10.  With a [std::sort] that permutes its input and leaves no
    element ordered before one that precedes it, and an attribute with
    [PERF_SAMPLE_TIME] and [sample_id_all], [DataSection] returns the
    decoded records of the region between the pointers
    [mmap_addr_ + data.offset] and [mmap_addr_ + data.offset + data.size]
    (64-bit sums), each once, with times that never
    decrease and, among records of one time, no sample record ahead of a
    record of another kind. *)
Theorem DataSection_returns_records_in_time_order (fuel : nat)
    (r : RecordFileReader) (m : mapping) (file_attrs : list Z)
    (attr : perf_event_attr) (data : SectionDesc) (lay : list (Z * Z)) :
  (forall l, Permutation (std_sort IsRecordHappensBefore l) l) ->
  (forall l, sorted_by IsRecordHappensBefore
               (std_sort IsRecordHappensBefore l)) ->
  AttrSection m = Ret file_attrs ->
  file_attrs <> [] ->
  read_perf_event_attr m (nth 0 file_attrs 0 + offsetof_FileAttr_attr)
    = Ret attr ->
  Z.land (sample_type attr) PERF_SAMPLE_TIME <> 0 ->
  sample_id_all attr = true ->
  header_data m FileHeader = Ret data ->
  walk_layout m (ptr_add (mmap_addr_ r) (offset data + size data))
    (ptr_add (mmap_addr_ r) (offset data)) lay ->
  (length lay <= fuel)%nat ->
  exists out,
    DataSection ReadRecordFromBuffer std_sort fuel r m = Ret out /\
    Permutation out
      (map (decode_at ReadRecordFromBuffer attr m)
           (filter (fun rec =>
                      fits (ptr_add (mmap_addr_ r) (offset data + size data))
                           rec = true)
                   lay)) /\
    StronglySorted in_time_order out.
Proof.
  intros Hperm Hsorted Hattrs Hne Hattr Htime Hall Hdata Hlay Hfuel.
  pose proof (walk_records_layout ReadRecordFromBuffer attr m _ _ lay Hlay
                fuel [] Hfuel) as Hwalk.
  simpl app in Hwalk.
  eexists. split; [|split].
  - unfold DataSection. rewrite Hattrs. simpl.
    destruct file_attrs as [|a rest]; [contradiction|]. simpl.
    simpl in Hattr. rewrite Hattr. simpl. rewrite Hdata. simpl.
    rewrite Hwalk. simpl. rewrite Hall.
    apply Z.eqb_neq in Htime. rewrite Htime. reflexivity.
  - apply Hperm.
  - eapply StronglySorted_weaken; [|apply Hsorted].
    intros a b. apply not_before_in_time_order.
Qed.
End DataSectionOutput.

(** *** The sort of the test files *)

Lemma sort_insert_perm (lt : Record_ -> Record_ -> bool) (x : Record_)
    (l : list Record_) :
  Permutation (sort_insert lt x l) (x :: l).
Proof.
  induction l as [|y l IH]; simpl; [reflexivity|].
  destruct (lt y x); [|reflexivity].
  rewrite IH. apply perm_swap.
Qed.

Lemma test_sort_perm (lt : Record_ -> Record_ -> bool) (l : list Record_) :
  Permutation (test_sort lt l) l.
Proof.
  induction l as [|x l IH]; simpl; [reflexivity|].
  rewrite sort_insert_perm. constructor. exact IH.
Qed.

Lemma sort_insert_sorted {L : Layout} (x : Record_) (l : list Record_) :
  sorted_by IsRecordHappensBefore l ->
  sorted_by IsRecordHappensBefore (sort_insert IsRecordHappensBefore x l).
Proof.
  unfold sorted_by. induction 1 as [|y l Hl IH Hall]; simpl.
  - constructor; constructor.
  - destruct (IsRecordHappensBefore y x) eqn:E.
    + constructor; [exact IH|].
      rewrite sort_insert_perm. constructor; [|exact Hall].
      apply IsRecordHappensBefore_asym. exact E.
    + constructor; [constructor; assumption|].
      constructor; [exact E|].
      eapply Forall_impl; [exact Hall|]. intros z Hz.
      eapply not_before_trans; eassumption.
Qed.

Lemma test_sort_sorted {L : Layout} (l : list Record_) :
  sorted_by IsRecordHappensBefore (test_sort IsRecordHappensBefore l).
Proof.
  induction l as [|x l IH]; simpl; [constructor|].
  apply sort_insert_sorted. exact IH.
Qed.

Lemma walk_records_decodes_disjoint_slices_witness :
  exists kept,
    walk_records test_decoder 4 test_attr sample_file 288 232 []
      = Ret (map (decode_at test_decoder test_attr sample_file) kept) /\
    Forall (fun rec => 232 <= fst rec /\ fst rec + snd rec <= 288) kept /\
    StronglySorted (fun a b => fst a + snd a <= fst b) kept.
Proof.
  destruct (walk_records_decodes_disjoint_slices test_decoder test_attr
              sample_file 288 232
              [(232, 16); (248, 16); (264, 16); (280, 24)] 4 []
              sample_file_layout ltac:(simpl; lia))
    as (kept & Hwalk & Hin & Hsorted).
  exists kept. split; [exact Hwalk|]. split; [|exact Hsorted].
  eapply Forall_impl; [exact Hin|]. intros rec (? & ? & _). auto.
Defined.

Lemma DataSection_returns_records_in_time_order_witness :
  (exists out,
     DataSection (L:=perf_data_layout) test_decoder test_sort 10
       mapped_reader sample_file = Ret out /\
     length out = 3%nat /\
     StronglySorted (in_time_order (L:=perf_data_layout)) out) /\
  (exists out,
     DataSection (L:=perf_data_layout) test_decoder test_sort 10
       mapped_reader (file_with_data_size (2 ^ 64 - 100)) = Ret out /\
     length out = 0%nat).
Proof.
  split.
  - edestruct (DataSection_returns_records_in_time_order
                 (L:=perf_data_layout) test_decoder test_sort 10
                 mapped_reader sample_file)
      as (out & Hrun & Hperm & Hsorted).
    + intros l. apply test_sort_perm.
    + intros l. apply test_sort_sorted.
    + vm_compute. reflexivity.
    + discriminate.
    + vm_compute. reflexivity.
    + vm_compute. discriminate.
    + reflexivity.
    + vm_compute. reflexivity.
    + exact sample_file_layout.
    + simpl. lia.
    + exists out. split; [exact Hrun|]. split; [|exact Hsorted].
      apply Permutation_length in Hperm. rewrite Hperm. reflexivity.
  - edestruct (DataSection_returns_records_in_time_order
                 (L:=perf_data_layout) test_decoder test_sort 10
                 mapped_reader (file_with_data_size (2 ^ 64 - 100)))
      as (out & Hrun & Hperm & _).
    + intros l. apply test_sort_perm.
    + intros l. apply test_sort_sorted.
    + vm_compute. reflexivity.
    + discriminate.
    + vm_compute. reflexivity.
    + vm_compute. discriminate.
    + reflexivity.
    + vm_compute. reflexivity.
    + apply walk_layout_end. vm_compute. discriminate.
    + simpl. lia.
    + exists out. split; [exact Hrun|].
      apply Permutation_length in Hperm. rewrite Hperm. reflexivity.
Defined.

(** ** The feature table and the command line: state and results *)

Lemma set_feature_sections_same (r : RecordFileReader) :
  set_feature_sections r (feature_sections_ r) = r.
Proof. destruct r. reflexivity. Qed.

Lemma c_str_Ret (bs s : list byte) :
  c_str bs = Ret s -> (x00 ∉ s) /\ exists rest, bs = s ++ x00 :: rest.
Proof.
  revert s. induction bs as [|b bs IH]; intros s Hs; simpl in Hs;
    [discriminate|].
  destruct (Byte.eqb b x00) eqn:E.
  - injection Hs as <-. apply Byte.byte_dec_bl in E. subst b.
    split; [apply not_elem_of_nil|]. exists bs. reflexivity.
  - apply bind_Ret_inv in Hs as (s' & Hs' & Hs). injection Hs as <-.
    destruct (IH s' Hs') as (Hnul & rest & ->).
    split.
    + apply not_elem_of_cons. split; [|exact Hnul].
      intros <-. vm_compute in E. discriminate.
    + exists rest. reflexivity.
Qed.

Section FeatureStateFacts.
Context {L : Layout}.

Lemma scan_features_zero (m : mapping) (hdr : Z) (n : nat) : forall i,
  (forall k : nat, (k < n)%nat ->
     header_features m hdr (i + Z.of_nat k) = Ret 0) ->
  scan_features m hdr i n = Ret [].
Proof.
  induction n as [|n IH]; intros i Hz; [reflexivity|]. simpl.
  replace (header_features m hdr i) with (Ret (A:=Z) 0)
    by (symmetry; rewrite <- (Hz 0%nat ltac:(lia)); f_equal; lia).
  simpl. rewrite IH; [reflexivity|].
  intros k Hk. rewrite <- (Hz (S k) ltac:(lia)). f_equal. lia.
Qed.

(** X11.  With no bit set in the feature bitmap, the table is empty and
    nothing is read at [data.offset + data.size]; the reader is left as
    it was, its table still empty, so every later call scans the bitmap
    again; and [ReadCmdlineFeature] returns no argument. *)
Theorem FeatureSectionDescriptors_without_features (m : mapping)
    (r : RecordFileReader) (data : SectionDesc) :
  feature_sections_ r = ∅ ->
  (forall k : nat, (k < sizeof_FileHeader_features)%nat ->
     header_features m FileHeader (Z.of_nat k) = Ret 0) ->
  header_data m FileHeader = Ret data ->
  FeatureSectionDescriptors m r = Ret (∅, r) /\
  ReadCmdlineFeature m r = Ret ([], r).
Proof.
  intros Hempty Hbits Hdata.
  assert (E : FeatureSectionDescriptors m r = Ret (∅, r)).
  { unfold FeatureSectionDescriptors.
    rewrite decide_True by exact Hempty.
    rewrite (scan_features_zero m FileHeader _ 0)
      by (intros k Hk; rewrite Z.add_0_l; apply Hbits, Hk).
    simpl. rewrite Hdata. simpl.
    rewrite set_feature_sections_same, Hempty. reflexivity. }
  split; [exact E|].
  unfold ReadCmdlineFeature. rewrite E. simpl.
  rewrite lookup_empty. reflexivity.
Qed.

Lemma FeatureSectionDescriptors_again (m : mapping)
    (r r' : RecordFileReader) (mp : gmap Z SectionDesc) :
  FeatureSectionDescriptors m r = Ret (mp, r') ->
  r' = set_feature_sections r mp /\
  FeatureSectionDescriptors m r' = Ret (mp, r').
Proof.
  unfold FeatureSectionDescriptors at 1.
  destruct (decide (feature_sections_ r = ∅)) as [Hempty|Hfull].
  - intros Hrun.
    apply bind_Ret_inv in Hrun as (features & Hscan & Hrun).
    apply bind_Ret_inv in Hrun as (data & Hdata & Hrun).
    apply bind_Ret_inv in Hrun as (mp' & Hins & Hrun).
    injection Hrun as -> <-. split; [reflexivity|].
    unfold FeatureSectionDescriptors. simpl.
    destruct (decide (mp = ∅)) as [Hmp|Hmp]; [|reflexivity].
    rewrite Hscan. simpl. rewrite Hdata. simpl.
    rewrite Hmp in *. rewrite Hempty in Hins. rewrite Hins. reflexivity.
  - intros [= <- <-]. split.
    + symmetry. apply set_feature_sections_same.
    + unfold FeatureSectionDescriptors.
      rewrite decide_False by exact Hfull. reflexivity.
Qed.

(** X12.  A call of [ReadCmdlineFeature] that returns leaves a reader
    that differs from the one it was given in the feature table alone,
    and on which both [FeatureSectionDescriptors] and
    [ReadCmdlineFeature] return the same values again and change
    nothing. *)
Theorem ReadCmdlineFeature_again (m : mapping) (r r' : RecordFileReader)
    (cmdline : list (list byte)) :
  ReadCmdlineFeature m r = Ret (cmdline, r') ->
  r' = set_feature_sections r (feature_sections_ r') /\
  FeatureSectionDescriptors m r = Ret (feature_sections_ r', r') /\
  FeatureSectionDescriptors m r' = Ret (feature_sections_ r', r') /\
  ReadCmdlineFeature m r' = Ret (cmdline, r').
Proof.
  unfold ReadCmdlineFeature at 1. intros Hrun.
  apply bind_Ret_inv in Hrun as ([mp r1] & Hfsd & Hrun).
  destruct (FeatureSectionDescriptors_again m r r1 mp Hfsd) as [Hr1 Hagain].
  assert (Hr' : r' = r1).
  { destruct (mp !! FEAT_CMDLINE) as [sec|].
    - apply bind_Ret_inv in Hrun as ([n p] & _ & Hrun).
      apply bind_Ret_inv in Hrun as (_ & _ & Hrun).
      apply bind_Ret_inv in Hrun as (c & _ & Hrun).
      congruence.
    - congruence. }
  subst r'.
  assert (Hmp : feature_sections_ r1 = mp) by (rewrite Hr1; reflexivity).
  rewrite Hmp. split; [exact Hr1|]. split; [exact Hfsd|].
  split; [exact Hagain|].
  unfold ReadCmdlineFeature. rewrite Hagain. exact Hrun.
Qed.
End FeatureStateFacts.

Section CmdlineResultFacts.
Context {L : Layout}.

Lemma read_args_Ret (m : mapping) (end_ : Z) (n : nat) :
  forall (p : Z) (acc out : list (list byte)),
    read_args m end_ p n acc = Ret out ->
    exists new,
      out = acc ++ new /\ length new = n /\
      Forall (fun s => x00 ∉ s) new.
Proof.
  induction n as [|n IH]; intros p acc out Hrun; simpl in Hrun.
  - injection Hrun as <-. exists []. rewrite app_nil_r.
    split; [reflexivity|]. split; [reflexivity|constructor].
  - apply bind_Ret_inv in Hrun as ([len p'] & _ & Hrun).
    apply bind_Ret_inv in Hrun as (_ & _ & Hrun).
    apply bind_Ret_inv in Hrun as (s & Hs & Hrun).
    apply IH in Hrun as (new & -> & Hlen & Hall).
    exists (s :: new). rewrite <- app_assoc.
    split; [reflexivity|]. split; [simpl; congruence|].
    constructor; [|exact Hall].
    unfold read_c_string in Hs. destruct (p' <? 0); [discriminate|].
    apply c_str_Ret in Hs as [Hnul _]. exact Hnul.
Qed.

Lemma CHECK_Ret (cond : bool) (u : unit) : CHECK cond = Ret u -> cond = true.
Proof. destruct cond; [reflexivity|discriminate]. Qed.

(** X13.  Whenever [ReadCmdlineFeature] returns: no string it returns
    contains a NUL byte; when the table has no command line section the
    result is empty; when it has one, the number of strings is the count
    stored at the start of the section, and the section holds at least
    the four bytes of that count. *)
Theorem ReadCmdlineFeature_result (m : mapping) (r r' : RecordFileReader)
    (cmdline : list (list byte)) :
  ReadCmdlineFeature m r = Ret (cmdline, r') ->
  Forall (fun s => x00 ∉ s) cmdline /\
  exists mp,
    FeatureSectionDescriptors m r = Ret (mp, r') /\
    match mp !! FEAT_CMDLINE with
    | None => cmdline = []
    | Some sec =>
        read_u32 m (offset sec) = Ret (Z.of_nat (length cmdline)) /\
        offset sec + 4 <= wrap64 (offset sec + size sec)
    end.
Proof.
  unfold ReadCmdlineFeature. intros Hrun.
  apply bind_Ret_inv in Hrun as ([mp r1] & Hfsd & Hrun).
  destruct (mp !! FEAT_CMDLINE) as [sec|] eqn:Esec.
  - apply bind_Ret_inv in Hrun as ([n p] & Hn & Hrun).
    apply bind_Ret_inv in Hrun as (u & Hcheck & Hrun).
    apply bind_Ret_inv in Hrun as (c & Hc & Hrun).
    injection Hrun as <- <-.
    unfold MoveFromBinaryFormat_u32, DataAtOffset in Hn.
    apply bind_Ret_inv in Hn as (v & Hv & Hn). injection Hn as <- <-.
    apply CHECK_Ret, Z.leb_le in Hcheck. unfold DataAtOffset in Hcheck.
    apply read_args_Ret in Hc as (new & -> & Hlen & Hall).
    split; [exact Hall|]. exists mp. split; [exact Hfsd|].
    rewrite Esec. split; [|exact Hcheck].
    rewrite Hv. f_equal. simpl. rewrite Hlen.
    apply read_uint_nonneg in Hv. lia.
  - injection Hrun as <- <-. split; [constructor|].
    exists mp. split; [exact Hfsd|]. rewrite Esec. reflexivity.
Qed.


End CmdlineResultFacts.

Section FeatureTableSize.
Context {L : Layout}.

Lemma insert_sections_keys (m : mapping) (features : list Z) :
  forall (p : Z) (mp0 mp : gmap Z SectionDesc),
    insert_sections m p features mp0 = Ret mp ->
    forall k, is_Some (mp !! k) -> is_Some (mp0 !! k) \/ k ∈ features.
Proof.
  induction features as [|f rest IH]; intros p mp0 mp Hrun k Hk;
    simpl in Hrun.
  - injection Hrun as <-. auto.
  - apply bind_Ret_inv in Hrun as (d & _ & Hrun).
    destruct (IH _ _ _ Hrun k Hk) as [Hin|Hin]; [|right; right; exact Hin].
    unfold map_insert in Hin. destruct (mp0 !! f) eqn:Ef; [auto|].
    destruct (decide (k = f)) as [->|Hkf]; [right; left|].
    rewrite lookup_insert_ne in Hin by congruence. auto.
Qed.

Lemma insert_sections_size (m : mapping) (features : list Z) :
  forall (p : Z) (mp0 mp : gmap Z SectionDesc),
    insert_sections m p features mp0 = Ret mp ->
    NoDup features ->
    (forall k, k ∈ features -> mp0 !! k = None) ->
    base.size mp = (base.size mp0 + length features)%nat.
Proof.
  induction features as [|f rest IH]; intros p mp0 mp Hrun Hnd Hfresh;
    simpl in Hrun.
  - injection Hrun as <-. simpl. lia.
  - apply bind_Ret_inv in Hrun as (d & _ & Hrun).
    apply NoDup_cons in Hnd as [Hf Hnd].
    unfold map_insert in Hrun. rewrite (Hfresh f) in Hrun by left.
    rewrite (IH _ _ _ Hrun Hnd).
    + rewrite map_size_insert_None by (apply Hfresh; left). simpl. lia.
    + intros k Hk. rewrite lookup_insert_ne by (intros ->; contradiction).
      apply Hfresh. right. exact Hk.
Qed.

(** X15.  A table built by [FeatureSectionDescriptors] has as many
    entries as there are bits set in the feature bitmap, and no key
    outside [0, 8 * sizeof(features)). *)
Theorem FeatureSectionDescriptors_size_and_range (m : mapping)
    (r r' : RecordFileReader) (bitmap : list Z)
    (mp : gmap Z SectionDesc) :
  feature_sections_ r = ∅ ->
  length bitmap = sizeof_FileHeader_features ->
  8 * Z.of_nat sizeof_FileHeader_features <= 2 ^ 31 ->
  (forall (i : nat) (b : Z), bitmap !! i = Some b ->
     header_features m FileHeader (Z.of_nat i) = Ret b) ->
  FeatureSectionDescriptors m r = Ret (mp, r') ->
  base.size mp = length (feature_ids bitmap) /\
  forall k, is_Some (mp !! k) ->
    0 <= k < 8 * Z.of_nat sizeof_FileHeader_features /\
    bit_set bitmap k = true.
Proof.
  intros Hempty Hlen Hmax Hbits Hrun.
  unfold FeatureSectionDescriptors in Hrun.
  rewrite decide_True in Hrun by exact Hempty.
  rewrite <- Hlen in Hrun.
  rewrite (scan_features_feature_ids m FileHeader bitmap) in Hrun
    by (lia || exact Hbits).
  simpl in Hrun.
  apply bind_Ret_inv in Hrun as (data & _ & Hrun).
  apply bind_Ret_inv in Hrun as (mp' & Hins & Hrun).
  injection Hrun as -> <-. rewrite Hempty in Hins. split.
  - rewrite (insert_sections_size _ _ _ _ _ Hins).
    + rewrite map_size_empty. reflexivity.
    + apply NoDup_filter, NoDup_seqZ.
    + intros k _. apply lookup_empty.
  - intros k Hk.
    destruct (insert_sections_keys _ _ _ _ _ Hins k Hk) as [[d Hd]|Hin].
    + rewrite lookup_empty in Hd. discriminate.
    + unfold feature_ids in Hin.
      apply list_elem_of_filter in Hin as [Hbit Hin].
      apply elem_of_seqZ in Hin. split; [lia|exact Hbit].
Qed.
End FeatureTableSize.

(** *** The feature table and the command line on the test files *)

Lemma FeatureSectionDescriptors_without_features_witness :
  FeatureSectionDescriptors (L:=perf_data_layout) file_without_attrs
    test_reader = Ret (∅, test_reader) /\
  ReadCmdlineFeature (L:=perf_data_layout) file_without_attrs test_reader
    = Ret ([], test_reader).
Proof.
  apply (FeatureSectionDescriptors_without_features (L:=perf_data_layout)
           file_without_attrs test_reader {| offset := 104; size := 0 |}).
  - reflexivity.
  - intros k Hk. do 32 (destruct k as [|k]; [reflexivity|]).
    simpl in Hk. lia.
  - reflexivity.
Defined.

Lemma ReadCmdlineFeature_again_witness :
  ReadCmdlineFeature (L:=perf_data_layout) cmdline_terminated
    (reader_with_cmdline {| offset := 248; size := 19 |})
  = Ret ([text "abc"; text "de"],
         reader_with_cmdline {| offset := 248; size := 19 |}).
Proof.
  apply (ReadCmdlineFeature_again (L:=perf_data_layout) cmdline_terminated
           test_reader).
  vm_compute. reflexivity.
Defined.

Lemma ReadCmdlineFeature_result_witness :
  Forall (fun s => x00 ∉ s) [text "abc"; text "de"].
Proof.
  apply (ReadCmdlineFeature_result (L:=perf_data_layout) cmdline_terminated
           test_reader (reader_with_cmdline {| offset := 248; size := 19 |})).
  vm_compute. reflexivity.
Defined.


Lemma FeatureSectionDescriptors_size_and_range_witness :
  exists mp r',
    FeatureSectionDescriptors (L:=perf_data_layout) sample_file test_reader
      = Ret (mp, r') /\
    base.size mp = 2%nat.
Proof.
  assert (Hrun : exists mp r',
            FeatureSectionDescriptors (L:=perf_data_layout) sample_file
              test_reader = Ret (mp, r'))
    by (do 2 eexists; vm_compute; reflexivity).
  destruct Hrun as (mp & r' & Hrun). exists mp, r'. split; [exact Hrun|].
  rewrite (proj1 (FeatureSectionDescriptors_size_and_range
                    (L:=perf_data_layout) sample_file test_reader r'
                    sample_bitmap mp eq_refl eq_refl ltac:(simpl; lia)
                    ltac:(intros i b Hi;
                          do 32 (destruct i as [|i];
                                 [injection Hi as <-; reflexivity|]);
                          discriminate)
                    Hrun)).
  rewrite sample_bitmap_ids. reflexivity.
Defined.
